(** * Gran Caffe L'Aquila digital wine list: the data layer of [js/main.js]

    A shallow embedding of the [WineListApp] methods that load, validate,
    normalise, classify and filter the wine records, with the properties the
    specification states about them.

    Conventions of the embedding.
    - A JavaScript string is a [string]: a sequence of 8-bit code units.  The
      case mappings [toUpperCase] and [toLowerCase] act on the ASCII letters
      and leave every other code unit alone, where the built-in ones also map
      letters outside ASCII (the sharp s to "SS", for one).  The embedding is
      exact for texts in the ASCII range, which is where the keywords, the
      region names and the year digits of the code live; a statement that
      depends on the case of a text names the mapping the code applies, so
      that it reads the same for the built-in one.
    - A property of a record that may be missing ([undefined] or [null]) is an
      [option string]; [truthy] is the test JavaScript applies to it in a
      condition.
    - An object literal used as a lookup table is a [gmap] of its own
      entries.  [JS.getProperty] reads it as [table[key]] does, the members
      inherited from [Object.prototype] included.  The string-valued
      [normalizeRegionName], [getRegionIcon] and [getRegionDescription] give
      what the code returns for a key that names no inherited member, which
      covers every region the validity filter lets in;
      [normalizeRegionNameValue] is the normaliser on every string.
    - A method call on a missing value throws a [TypeError]; code that can
      throw returns an [option], [None] standing for the exception.
    - The instance fields the methods read and write are collected in the
      record [App], and each method is a function on that record. *)

From Stdlib Require Import Ascii String List Bool Arith Lia.
From stdpp Require Import base option list strings gmap sorting.

(* stdpp keeps [simpl] from unfolding the append of strings. *)
#[local] Arguments String.append !_ _ / : simpl nomatch.

(** ** JavaScript strings *)

Module JS.

Definition code (c : ascii) : nat := nat_of_ascii c.

Definition between (lo hi : nat) (c : ascii) : bool :=
  Nat.leb lo (code c) && Nat.leb (code c) hi.

Definition isLower : ascii -> bool := between 97 122.
Definition isUpper : ascii -> bool := between 65 90.
Definition isDigit : ascii -> bool := between 48 57.

(** The class [\w] of a regular expression without the [u] and [i] flags. *)
Definition isWord (c : ascii) : bool :=
  isLower c || isUpper c || isDigit c || Nat.eqb (code c) 95.

(** White space and line terminators, as [String.prototype.trim] strips
    them (the ones that fit a code unit of the model). *)
Definition isSpace (c : ascii) : bool :=
  between 9 13 c || Nat.eqb (code c) 32 || Nat.eqb (code c) 160.

Definition upperChar (c : ascii) : ascii :=
  if isLower c then ascii_of_nat (code c - 32) else c.

Definition lowerChar (c : ascii) : ascii :=
  if isUpper c then ascii_of_nat (code c + 32) else c.

Fixpoint mapChars (f : ascii -> ascii) (s : string) : string :=
  match s with
  | EmptyString => EmptyString
  | String c t => String (f c) (mapChars f t)
  end.

Definition toUpperCase : string -> string := mapChars upperChar.
Definition toLowerCase : string -> string := mapChars lowerChar.

(** [s.startsWith(p)] *)
Fixpoint startsWith (s p : string) {struct p} : bool :=
  match p, s with
  | EmptyString, _ => true
  | String _ _, EmptyString => false
  | String a p', String b s' => Ascii.eqb a b && startsWith s' p'
  end.

(** [s.includes(p)]: [p] occurs in [s] as a run of consecutive code units. *)
Fixpoint includes (s p : string) : bool :=
  startsWith s p ||
  match s with
  | EmptyString => false
  | String _ t => includes t p
  end.

Fixpoint trimStart (s : string) : string :=
  match s with
  | EmptyString => EmptyString
  | String c t => if isSpace c then trimStart t else s
  end.

Definition trimEnd (s : string) : string :=
  String.rev (trimStart (String.rev s)).

Definition trim (s : string) : string := trimEnd (trimStart s).

(** The test a condition applies to a value that is a string or missing:
    [undefined], [null] and the empty string are falsy. *)
Definition truthyStr (s : string) : bool := negb (String.eqb s "").

Definition truthy (v : option string) : bool :=
  match v with
  | Some s => truthyStr s
  | None => false
  end.

(** [a || b] on values that are strings or missing. *)
Definition orElse (a : option string) (b : string) : string :=
  match a with
  | Some s => if truthyStr s then s else b
  | None => b
  end.

(** [array.includes(x)] on an array of strings. *)
Definition arrayIncludes (l : list string) (x : string) : bool :=
  existsb (String.eqb x) l.

(** The names of the members an object literal inherits from
    [Object.prototype]: those of ECMAScript and of its Annex B.  Each is a
    function or an object, so truthy. *)
Definition objectPrototypeNames : list string := [
  "constructor"; "hasOwnProperty"; "isPrototypeOf"; "propertyIsEnumerable";
  "toLocaleString"; "toString"; "valueOf";
  "__defineGetter__"; "__defineSetter__"; "__lookupGetter__"; "__lookupSetter__";
  "__proto__"
].

(** What a lookup in a table of values of type [A] can give: a value of the
    table, or the member of [Object.prototype] of a given name. *)
Inductive Value (A : Type) :=
  | Val (a : A)
  | Member (name : string).

Arguments Val {A} a.
Arguments Member {A} name.

(** [table[key]] on an object literal with the own entries [table]; [None]
    is [undefined].  An own entry comes before an inherited member. *)
Definition getProperty {A : Type} (table : gmap string A) (key : string)
  : option (Value A) :=
  match table !! key with
  | Some a => Some (Val a)
  | None => if arrayIncludes objectPrototypeNames key then Some (Member key) else None
  end.

(** The test a condition applies to what a lookup in a table of strings
    gave. *)
Definition truthyValue (v : option (Value string)) : bool :=
  match v with
  | Some (Val s) => truthyStr s
  | Some (Member _) => true
  | None => false
  end.

End JS.

Import JS.

(** ** The data model *)

(** A record of [data/wines.json], with the fields the data layer reads. *)
Record Wine := {
  wine_number : option string;
  wine_name : option string;
  wine_producer : option string;
  wine_type : option string;
  region : option string;
  wine_vintage : option string;
  wine_price : option string;
  wine_price_bottle : option string;
  wine_price_glass : option string;
  varietals : option string
}.

(** [this.currentFilters] *)
Module Filters.
Record t := {
  type : option string;
  region : option string;
  search : string
}.
End Filters.

(** The fields of a [WineListApp] the data layer uses.  [allRegions] is
    [undefined] until [renderRegionsPage] has run. *)
Record App := {
  wines : list Wine;
  filteredWines : list Wine;
  currentFilters : Filters.t;
  allRegions : option (list string)
}.

(** The state the constructor leaves. *)
Definition newApp : App := {|
  wines := [];
  filteredWines := [];
  currentFilters := {| Filters.type := None; Filters.region := None; Filters.search := "" |};
  allRegions := None
|}.

(** The six wine families; [familyName] is the string the code uses for
    each. *)
Inductive WineFamily :=
  | ROSSO | BIANCO | ROSATO | ARANCIONE | BOLLICINE | NON_ALCOLICO.

Definition familyName (f : WineFamily) : string :=
  match f with
  | ROSSO => "ROSSO"
  | BIANCO => "BIANCO"
  | ROSATO => "ROSATO"
  | ARANCIONE => "ARANCIONE"
  | BOLLICINE => "BOLLICINE"
  | NON_ALCOLICO => "NON ALCOLICO"
  end.

(** ** Family classifier *)

(** [getWineFamily(wineType)] *)
Definition getWineFamily (wineType : option string) : WineFamily :=
  match wineType with
  | None => ROSSO
  | Some wineType =>
    if negb (truthyStr wineType) then ROSSO else
    let type := toUpperCase wineType in
    if includes type "BOLLICINE" then BOLLICINE
    else if includes type "NON ALCOLICO" || includes type "NON-ALCOHOLIC"
            || includes type "0.0" then NON_ALCOLICO
    else if includes type "ROSATO" then ROSATO
    else if includes type "ARANCIONE" then ARANCIONE
    else if includes type "BIANCO" then BIANCO
    else if includes type "ROSSO" || includes type "AMARONE"
            || includes type "BAROLO" || includes type "SUPERTUSCAN"
            || includes type "SUPERIORE" || includes type "RIPASSO" then ROSSO
    else ROSSO
  end.

(** [wineMatchesFamily(wine, targetFamily)]: the target is whatever string
    the caller holds, a family name or not. *)
Definition wineMatchesFamily (wine : Wine) (targetFamily : string) : bool :=
  let wineFamily := getWineFamily (wine_type wine) in
  String.eqb (familyName wineFamily) targetFamily.

(** ** Region normaliser *)

(** The entries of the object literal [regionMap], in source order. *)
Definition regionMapEntries : list (string * string) := [
  ("FRIULI-VENEZIA GIULIA", "FRIULI-VENEZIA GIULIA");
  ("FRIULI VENEZIA GIULIA", "FRIULI-VENEZIA GIULIA");
  ("FRIULI VENEZIA", "FRIULI-VENEZIA GIULIA");
  ("FRIULI", "FRIULI-VENEZIA GIULIA");
  ("LE MARCHE", "LE MARCHE");
  ("MARCHE", "LE MARCHE");
  ("TRENTINO ALTO-ADIGE", "TRENTINO ALTO-ADIGE");
  ("TRENTINO", "TRENTINO ALTO-ADIGE");
  ("ALTO ADIGE", "TRENTINO ALTO-ADIGE");
  ("VALLE D'AOSTA", "VALLE D'AOSTA");
  ("AOSTA", "VALLE D'AOSTA");
  ("TOSCANA", "TOSCANA");
  ("TOSCANA (BOLGHERI)", "TOSCANA");
  ("SICILIA", "SICILIA");
  ("PIEMONTE", "PIEMONTE");
  ("VENETO", "VENETO");
  ("LUGANA DOC (VENETO)", "VENETO");
  ("LOMBARDIA", "LOMBARDIA");
  ("EMILIA-ROMAGNA", "EMILIA-ROMAGNA");
  ("LAZIO", "LAZIO");
  ("CAMPANIA", "CAMPANIA");
  ("PUGLIA", "PUGLIA");
  ("TARANTO IGT (PUGLIA)", "PUGLIA");
  ("CALABRIA", "CALABRIA");
  ("BASILICATA", "BASILICATA");
  ("MATERA DOC (BASILICATA)", "BASILICATA");
  ("MOLISE", "MOLISE");
  ("ABRUZZO", "ABRUZZO");
  ("UMBRIA", "UMBRIA");
  ("SARDEGNA", "SARDEGNA");
  ("LIGURIA", "LIGURIA")
].

Definition regionMap : gmap string string := list_to_map regionMapEntries.

Arguments regionMap : simpl never.

(** [normalizeRegionName(regionName)]: [regionMap[regionName] || regionName],
    after the guard that answers [''] for a missing or empty name.  This is
    the string the code returns for a name that names no member inherited
    from [Object.prototype]; [normalizeRegionNameValue] below covers every
    name. *)
Definition normalizeRegionName (regionName : option string) : string :=
  match regionName with
  | None => ""
  | Some regionName =>
    if negb (truthyStr regionName) then ""
    else orElse (regionMap !! regionName) regionName
  end.

(** [normalizeRegionName(regionName)] with everything it can return: for a
    name that is not a key of [regionMap] and names a member of
    [Object.prototype], [regionMap[regionName]] is that member, which is
    truthy and is returned. *)
Definition normalizeRegionNameValue (regionName : option string) : Value string :=
  match regionName with
  | None => Val ""
  | Some regionName =>
    if negb (truthyStr regionName) then Val ""
    else match getProperty regionMap regionName with
         | Some (Val canonical) =>
           if truthyStr canonical then Val canonical else Val regionName
         | Some (Member name) => Member name
         | None => Val regionName
         end
  end.

(** ** Validity filter *)

(** The array [validRegions] of [loadWineData]. *)
Definition validRegions : list string := [
  "SICILIA"; "PIEMONTE"; "TOSCANA"; "VENETO"; "LOMBARDIA"; "EMILIA-ROMAGNA";
  "LAZIO"; "CAMPANIA"; "PUGLIA"; "CALABRIA"; "BASILICATA"; "MOLISE";
  "ABRUZZO"; "UMBRIA"; "LE MARCHE"; "FRIULI-VENEZIA GIULIA"; "FRIULI";
  "TRENTINO ALTO-ADIGE"; "VALLE D'AOSTA"; "LIGURIA"; "SARDEGNA";
  "TOSCANA (BOLGHERI)"; "LUGANA DOC (VENETO)"; "TARANTO IGT (PUGLIA)";
  "MATERA DOC (BASILICATA)"
].

(** [v && v !== lit] for a field [v]. *)
Definition presentAndNot (v : option string) (lits : list string) : bool :=
  match v with
  | Some s => truthyStr s && forallb (fun lit => negb (String.eqb s lit)) lits
  | None => false
  end.

Definition hasValidRegion (wine : Wine) : bool :=
  match region wine with
  | Some r => truthyStr r && arrayIncludes validRegions r
  | None => false
  end.

Definition hasValidName (wine : Wine) : bool :=
  presentAndNot (wine_name wine) ["WINE NAME"; "WINE PRICE"; "VINTAGE"].

Definition hasValidProducer (wine : Wine) : bool :=
  presentAndNot (wine_producer wine) ["UNKNOWN PRODUCER"].

Definition hasValidPrice (wine : Wine) : bool :=
  presentAndNot (wine_price wine) ["0"]
  || presentAndNot (wine_price_bottle wine) ["0"]
  || presentAndNot (wine_price_glass wine) ["0"].

Definition isNotSangriaOrCocktail (wine : Wine) : bool :=
  match wine_type wine with
  | Some t =>
    truthyStr t
    && negb (includes (toUpperCase t) "SANGRIA")
    && negb (includes (toUpperCase t) "COCKTAIL")
  | None => false
  end.

(** The callback of the [filter] in [loadWineData]. *)
Definition validWine (wine : Wine) : bool :=
  hasValidRegion wine && hasValidName wine && hasValidProducer wine
  && hasValidPrice wine && isNotSangriaOrCocktail wine.

(** [loadWineData()], given the parsed document's [wines] member (missing
    when the document has none): the retained records become [this.wines],
    and [this.filteredWines] a copy of them. *)
Definition loadWineData (data_wines : option (list Wine)) (app : App) : App :=
  let valid := List.filter validWine (default [] data_wines) in
  {| wines := valid;
     filteredWines := valid;
     currentFilters := currentFilters app;
     allRegions := allRegions app |}.

(** The validity filter on its own. *)
Definition validityFilter (records : list Wine) : list Wine :=
  wines (loadWineData (Some records) newApp).

(** ** Query and filter engine *)

(** [!v || test(v)]: a criterion that is not set lets every wine through. *)
Definition unsetOr (v : option string) (test : string -> bool) : bool :=
  match v with
  | Some s => if truthyStr s then test s else true
  | None => true
  end.

(** [Array.prototype.filter] with a callback that can throw: the first
    exception ends the call. *)
Fixpoint filterE {A : Type} (p : A -> option bool) (l : list A) : option (list A) :=
  match l with
  | [] => Some []
  | x :: t =>
    b ← p x;
    r ← filterE p t;
    Some (if b : bool then x :: r else r)
  end.

(** The [matchesSearch] of [applyFilters]: [toLowerCase] is called on the
    name, then on the region, each only when the tests before it failed, and
    throws on a missing one; [varietals] is guarded. *)
Definition matchesSearch (search : string) (wine : Wine) : option bool :=
  if negb (truthyStr search) then Some true else
  name ← wine_name wine;
  if includes (toLowerCase name) search then Some true else
  r ← region wine;
  if includes (toLowerCase r) search then Some true else
  Some match varietals wine with
       | Some v => truthyStr v && includes (toLowerCase v) search
       | None => false
       end.

(** The callback of the [filter] in [applyFilters]. *)
Definition applyFiltersCallback (f : Filters.t) (wine : Wine) : option bool :=
  let matchesType := unsetOr (Filters.type f) (wineMatchesFamily wine) in
  let matchesRegion :=
    unsetOr (Filters.region f) (fun r => bool_decide (region wine = Some r)) in
  matchesSearch ← matchesSearch (Filters.search f) wine;
  Some (matchesType && matchesRegion && matchesSearch).

(** [applyFilters()]: replaces [this.filteredWines]; the rendering that
    follows reads it and changes no field. *)
Definition applyFilters (app : App) : option App :=
  filtered ← filterE (applyFiltersCallback (currentFilters app)) (wines app);
  Some {| wines := wines app;
          filteredWines := filtered;
          currentFilters := currentFilters app;
          allRegions := allRegions app |}.

(** The callback of the [filter] in [renderWinesPage]. *)
Definition winesPageCallback (f : Filters.t) (wine : Wine) : bool :=
  let normalizedWineRegion := normalizeRegionName (region wine) in
  let normalizedFilterRegion := normalizeRegionName (Filters.region f) in
  let matchesRegion := String.eqb normalizedWineRegion normalizedFilterRegion in
  let matchesType := unsetOr (Filters.type f) (wineMatchesFamily wine) in
  matchesRegion && matchesType.

(** [renderWinesPage()]: returns at once when no region is set. *)
Definition renderWinesPage (app : App) : App :=
  if negb (truthy (Filters.region (currentFilters app))) then app else
  {| wines := wines app;
     filteredWines := List.filter (winesPageCallback (currentFilters app)) (wines app);
     currentFilters := currentFilters app;
     allRegions := allRegions app |}.

(** ** Region listings *)

(** A [Set] of strings keeps its members in insertion order. *)
Definition setAdd (set : list string) (x : string) : list string :=
  if arrayIncludes set x then set else set ++ [x].

Definition newSet (l : list string) : list string := fold_left setAdd l [].

(** [array.sort()] on strings: ascending in code-unit order. *)
Definition sort (l : list string) : list string := merge_sort String.le l.

(** [wine.region && wine.region.trim() !== ''] *)
Definition hasRegion (wine : Wine) : bool :=
  match region wine with
  | Some r => truthyStr r && negb (String.eqb (trim r) "")
  | None => false
  end.

(** The wines [renderRegionsPage] draws the regions from. *)
Definition winesToUse (app : App) : list Wine :=
  match Filters.type (currentFilters app) with
  | Some t =>
    if truthyStr t then List.filter (fun wine => wineMatchesFamily wine t) (wines app)
    else wines app
  | None => wines app
  end.

(** [renderRegionsPage()], up to the assignment of [this.allRegions]. *)
Definition renderRegionsPage (app : App) : App :=
  let regionSet :=
    fold_left (fun set wine => setAdd set (normalizeRegionName (region wine)))
              (List.filter hasRegion (winesToUse app)) [] in
  {| wines := wines app;
     filteredWines := filteredWines app;
     currentFilters := currentFilters app;
     allRegions := Some (sort regionSet) |}.

(** The query parameters of a link: the values [encodeURIComponent] wrote
    into it, as [URLSearchParams.get] reads them back. *)
Record URLParams := {
  param_type : option string;
  param_region : option string
}.

(** What [filterRegions] renders for one region: the link, the title and the
    count of the card. *)
Record RegionCard := {
  card_href : URLParams;
  card_title : string;
  card_count : nat
}.

Definition regionCard (app : App) (r : string) : RegionCard :=
  let f := currentFilters app in
  let count :=
    length (List.filter (fun wine =>
      let normalizedWineRegion := normalizeRegionName (region wine) in
      let normalizedFilterRegion := normalizeRegionName (Some r) in
      String.eqb normalizedWineRegion normalizedFilterRegion) (wines app)) in
  let count :=
    match Filters.type f with
    | Some t =>
      if truthyStr t then
        length (List.filter (fun wine =>
          let normalizedWineRegion := normalizeRegionName (region wine) in
          let normalizedFilterRegion := normalizeRegionName (Some r) in
          String.eqb normalizedWineRegion normalizedFilterRegion
          && wineMatchesFamily wine t) (wines app))
      else count
    | None => count
    end in
  let normalizedRegion := normalizeRegionName (Some r) in
  {| card_href := {| param_region := Some normalizedRegion;
                     param_type := if truthy (Filters.type f) then Filters.type f else None |};
     card_title := normalizedRegion;
     card_count := count |}.

(** [filterRegions()]: the cards of the regions grid; nothing is rendered
    before [this.allRegions] exists. *)
Definition filterRegions (app : App) : list RegionCard :=
  match allRegions app with
  | None => []
  | Some all =>
    let search := Filters.search (currentFilters app) in
    let filteredRegions :=
      List.filter (fun r => negb (truthyStr search) || includes (toLowerCase r) search) all in
    map (regionCard app) filteredRegions
  end.

(** [showRegionFilter()]: the regions offered by the filter dropdown. *)
Definition showRegionFilter (app : App) : list string :=
  sort (newSet (omap region (List.filter hasRegion (wines app)))).

(** The [input] listener of the search box stores the text in lower case. *)
Definition setSearch (text : string) (app : App) : App :=
  {| wines := wines app;
     filteredWines := filteredWines app;
     currentFilters := {| Filters.type := Filters.type (currentFilters app);
                          Filters.region := Filters.region (currentFilters app);
                          Filters.search := toLowerCase text |};
     allRegions := allRegions app |}.

(** ** Year extraction *)

(** The regular expressions [extractYear] needs, and how the engine matches
    them: leftmost start first, the alternatives of [|] in order. *)
Module RegExp.

Inductive t :=
  | Empty
  | Char (c : ascii)
  | Digit                  (* \d *)
  | WordBoundary           (* \b *)
  | Seq (r1 r2 : t)
  | Alt (r1 r2 : t).

(** [r{n}] *)
Fixpoint times (n : nat) (r : t) : t :=
  match n with
  | O => Empty
  | S n => Seq r (times n r)
  end.

Fixpoint literal (s : string) : t :=
  match s with
  | EmptyString => Empty
  | String c s => Seq (Char c) (literal s)
  end.

(** A position in the subject: the code unit before it, if any, and the
    text from it on. *)
Definition isWordAt (c : option ascii) : bool :=
  match c with
  | Some c => isWord c
  | None => false
  end.

Definition head (s : string) : option ascii :=
  match s with
  | EmptyString => None
  | String c _ => Some c
  end.

(** The ways [r] matches at a position, in the order backtracking tries
    them: the matched text and the position after it. *)
Fixpoint run (r : t) (prev : option ascii) (s : string)
  : list (string * (option ascii * string)) :=
  match r with
  | Empty => [(EmptyString, (prev, s))]
  | Char c =>
    match s with
    | String c' s' => if Ascii.eqb c c' then [(String c' EmptyString, (Some c', s'))] else []
    | EmptyString => []
    end
  | Digit =>
    match s with
    | String c' s' => if isDigit c' then [(String c' EmptyString, (Some c', s'))] else []
    | EmptyString => []
    end
  | WordBoundary =>
    if xorb (isWordAt prev) (isWordAt (head s)) then [(EmptyString, (prev, s))] else []
  | Seq r1 r2 =>
    flat_map (fun m1 =>
      List.map (fun m2 => (fst m1 +:+ fst m2, snd m2))
               (run r2 (fst (snd m1)) (snd (snd m1))))
      (run r1 prev s)
  | Alt r1 r2 => run r1 prev s ++ run r2 prev s
  end.

(** [s.match(r)] for [r] without the [g] flag: the text of the first
    match, trying each start position from the left. *)
Fixpoint matchFrom (r : t) (prev : option ascii) (s : string) : option string :=
  match run r prev s with
  | m :: _ => Some (fst m)
  | [] =>
    match s with
    | String c s' => matchFrom r (Some c) s'
    | EmptyString => None
    end
  end.

Definition match_ (s : string) (r : t) : option string := matchFrom r None s.

End RegExp.

(** [/\b(19|20)\d{2}\b/] *)
Definition yearRegExp : RegExp.t :=
  RegExp.Seq RegExp.WordBoundary
    (RegExp.Seq (RegExp.Alt (RegExp.literal "19") (RegExp.literal "20"))
      (RegExp.Seq (RegExp.times 2 RegExp.Digit) RegExp.WordBoundary)).

(** [extractYear(vintage)] *)
Definition extractYear (vintage : option string) : string :=
  match vintage with
  | None => "N/A"
  | Some vintage =>
    if negb (truthyStr vintage) then "N/A" else
    match RegExp.match_ vintage yearRegExp with
    | Some yearMatch => yearMatch
    | None => "N/A"
    end
  end.

(** ** Navigation between the pages *)

(** [handleURLParameters()], given the query parameters of the page's address.
    [decodeURIComponent] is the browser's; it throws a [URIError] on a
    malformed escape sequence.  The [id] parameter only opens the details of
    one wine and sets no field. *)
Definition handleURLParameters (decodeURIComponent : string -> option string)
    (params : URLParams) (app : App) : option App :=
  let f := currentFilters app in
  let type := if truthy (param_type params) then param_type params else Filters.type f in
  r ← (match param_region params with
       | Some r => if truthyStr r then Some <$> decodeURIComponent r else Some (Filters.region f)
       | None => Some (Filters.region f)
       end);
  Some {| wines := wines app;
          filteredWines := filteredWines app;
          currentFilters := {| Filters.type := type;
                               Filters.region := r;
                               Filters.search := Filters.search f |};
          allRegions := allRegions app |}.

Inductive Page := IndexPage | RegionsPage | WinesPage | WineDetailsPage.

(** [renderCurrentPage()], for the pages whose rendering sets a field. *)
Definition renderCurrentPage (page : Page) (app : App) : App :=
  match page with
  | RegionsPage => renderRegionsPage app
  | WinesPage => renderWinesPage app
  | _ => app
  end.

(** [init()] on a page: load, read the address, render.  [None] when reading
    the address throws: [init] then reports the failure and renders
    nothing. *)
Definition init (decodeURIComponent : string -> option string) (page : Page)
    (data_wines : option (list Wine)) (params : URLParams) : option App :=
  app ← handleURLParameters decodeURIComponent params (loadWineData data_wines newApp);
  Some (renderCurrentPage page app).

(** ** The specification's wording

    The definitions of this module follow the text of the specification, for
    comparison with the code above. *)
Module Spec.

(** Section 4.3: the substrings tested, in priority order, and the family
    each yields. *)
Definition priorities : list (list string * WineFamily) := [
  (["BOLLICINE"], BOLLICINE);
  (["NON ALCOLICO"; "NON-ALCOHOLIC"; "0.0"], NON_ALCOLICO);
  (["ROSATO"], ROSATO);
  (["ARANCIONE"], ARANCIONE);
  (["BIANCO"], BIANCO);
  (["ROSSO"; "AMARONE"; "BAROLO"; "SUPERTUSCAN"; "SUPERIORE"; "RIPASSO"], ROSSO)
].

Fixpoint firstMatch (rules : list (list string * WineFamily)) (text : string) : WineFamily :=
  match rules with
  | [] => ROSSO
  | (needles, family) :: rules =>
    if existsb (includes text) needles then family else firstMatch rules text
  end.

Definition classify (rawType : option string) : WineFamily :=
  match rawType with
  | None => ROSSO
  | Some EmptyString => ROSSO
  | Some raw => firstMatch priorities (toUpperCase raw)
  end.

(** Section 3: the canonical region names, the values of the mapping
    table. *)
Definition canonicalRegions : list string := [
  "FRIULI-VENEZIA GIULIA"; "LE MARCHE"; "TRENTINO ALTO-ADIGE"; "VALLE D'AOSTA";
  "TOSCANA"; "SICILIA"; "PIEMONTE"; "VENETO"; "LOMBARDIA"; "EMILIA-ROMAGNA";
  "LAZIO"; "CAMPANIA"; "PUGLIA"; "CALABRIA"; "BASILICATA"; "MOLISE";
  "ABRUZZO"; "UMBRIA"; "SARDEGNA"; "LIGURIA"
].

(** [p] occurs in [s]. *)
Definition substring (p s : string) : Prop :=
  exists before after, s = before +:+ p +:+ after.

(** [p] occurs in [s], letter case ignored. *)
Definition substringNoCase (p s : string) : Prop :=
  substring (toLowerCase p) (toLowerCase s).

(** Section 3: the invariants of a ValidWine, as worded there. *)
Definition present (v : option string) (excluded : list string) : Prop :=
  exists s, v = Some s /\ s <> "" /\ s ∉ excluded.

Record ValidWine (r : Wine) : Prop := {
  name_ok : present (wine_name r) ["WINE NAME"; "WINE PRICE"; "VINTAGE"];
  producer_ok : present (wine_producer r) ["UNKNOWN PRODUCER"];
  price_ok :
    present (wine_price r) ["0"] \/ present (wine_price_bottle r) ["0"]
    \/ present (wine_price_glass r) ["0"];
  region_ok : normalizeRegionName (region r) ∈ canonicalRegions;
  type_ok :
    forall t, wine_type r = Some t ->
      ~ substringNoCase "SANGRIA" t /\ ~ substringNoCase "COCKTAIL" t
}.

(** Section 4.4: the matching rule of the query engine.  A criterion is
    absent when it is missing or empty. *)
Definition absent (v : option string) : Prop := v = None \/ v = Some "".

Definition familyMatches (w : Wine) (family : string) : Prop :=
  familyName (classify (wine_type w)) = family.

(** The rule, for a given way of comparing the region of the wine with the
    region of the criteria. *)
Definition matchesWith (sameRegion : option string -> option string -> Prop)
    (spec : Filters.t) (w : Wine) : Prop :=
  (absent (Filters.type spec)
   \/ exists family, Filters.type spec = Some family /\ familyMatches w family)
  /\ (absent (Filters.region spec) \/ sameRegion (region w) (Filters.region spec))
  /\ (Filters.search spec = ""
      \/ substringNoCase (Filters.search spec) (default "" (wine_name w))
      \/ substringNoCase (Filters.search spec) (default "" (region w))
      \/ substringNoCase (Filters.search spec) (default "" (varietals w))).

(** The rule as the specification has it: regions are compared after
    normalisation. *)
Definition matches : Filters.t -> Wine -> Prop :=
  matchesWith (fun a b => normalizeRegionName a = normalizeRegionName b).

(** Section 4.4: a run of four digits that starts with 19 or 20. *)
Definition yearShape (y : string) : Prop :=
  exists c d, (y = "19" +:+ String c (String d "") \/ y = "20" +:+ String c (String d ""))
              /\ isDigit c = true /\ isDigit d = true.

(** Section 4.4, the result of the year extraction: the first such run
    anywhere in the text, or "N/A" when the text has none. *)
Definition firstYear (v y : string) : Prop :=
  exists before after,
    v = before +:+ y +:+ after /\ yearShape y
    /\ forall before' y' after',
         v = before' +:+ y' +:+ after' -> yearShape y' ->
         String.length before <= String.length before'.

Definition extractYearResult (v result : string) : Prop :=
  firstYear v result
  \/ (result = "N/A" /\ forall y, yearShape y -> ~ substring y v).

End Spec.

(** The code unit before the position reached by reading [s], [prev] being
    the one before [s]. *)
Fixpoint unitBefore (prev : option ascii) (s : string) : option ascii :=
  match s with
  | EmptyString => prev
  | String c s => unitBefore (Some c) s
  end.

(** [y] is a year standing in [v] between [before] and [after], with a word
    boundary on either side: no letter, digit or underscore touches it. *)
Definition yearBetween (v before y after : string) : Prop :=
  v = before +:+ y +:+ after
  /\ Spec.yearShape y
  /\ RegExp.isWordAt (unitBefore None before) = false
  /\ RegExp.isWordAt (RegExp.head after) = false.


(** A record with a name, a producer, a type, a region and a price, and no
    other field. *)
Definition sampleWine (name producer type r price : string) : Wine := {|
  wine_number := None;
  wine_name := Some name;
  wine_producer := Some producer;
  wine_type := Some type;
  region := Some r;
  wine_vintage := None;
  wine_price := Some price;
  wine_price_bottle := None;
  wine_price_glass := None;
  varietals := None
|}.

(** A wine whose region is written "MARCHE", a spelling the normaliser knows
    and [validRegions] does not list, and a wine with no type. *)
Definition verdicchio : Wine :=
  sampleWine "Verdicchio" "Umani Ronchi" "BIANCO" "MARCHE" "40".

Definition etnaRosso : Wine := {|
  wine_number := None;
  wine_name := Some "Etna Rosso";
  wine_producer := Some "Benanti";
  wine_type := None;
  region := Some "SICILIA";
  wine_vintage := Some "2019";
  wine_price := Some "55";
  wine_price_bottle := None;
  wine_price_glass := None;
  varietals := Some "Nerello Mascalese"
|}.

(** A wine of Friuli whose region is written "FRIULI", one of the accepted
    spellings, and the state of the wines page opened from the region card
    "FRIULI-VENEZIA GIULIA" after "ribolla" was typed in its search box. *)
Definition ribolla : Wine :=
  sampleWine "Ribolla Gialla" "Jermann" "BIANCO" "FRIULI" "60".

Definition friuliCriteria : Filters.t :=
  {| Filters.type := None;
     Filters.region := Some "FRIULI-VENEZIA GIULIA";
     Filters.search := "ribolla" |}.

Definition friuliPage : App :=
  {| wines := validityFilter [ribolla];
     filteredWines := validityFilter [ribolla];
     currentFilters := friuliCriteria;
     allRegions := None |}.

(** A second wine of the same region, written with the canonical name, and
    the state after loading the two. *)
Definition friulano : Wine :=
  sampleWine "Friulano" "Livio Felluga" "BIANCO" "FRIULI-VENEZIA GIULIA" "48".

Definition friuliCellar : App := loadWineData (Some [ribolla; friulano]) newApp.

(** A decoder that knows texts without [%] only. *)
Definition plainDecoder (s : string) : option string :=
  if includes s "%" then None else Some s.

(** The regions page opened for the white wines of [friuliCellar]. *)
Definition biancoRegionsPage : App :=
  renderRegionsPage
    {| wines := wines friuliCellar;
       filteredWines := filteredWines friuliCellar;
       currentFilters := {| Filters.type := Some "BIANCO";
                            Filters.region := None;
                            Filters.search := "" |};
       allRegions := None |}.

(** ** The rest of the data layer *)

(** [showVarietalFilter()]: the varietals offered by the filter dropdown. *)
Definition hasVarietals (wine : Wine) : bool :=
  match varietals wine with
  | Some v => truthyStr v && negb (String.eqb (trim v) "")
  | None => false
  end.

Definition showVarietalFilter (app : App) : list string :=
  sort (newSet (omap varietals (List.filter hasVarietals (wines app)))).

(** [clearAllFilters()]: the criteria go back to their initial values. *)
Definition clearAllFilters (app : App) : App :=
  {| wines := wines app;
     filteredWines := filteredWines app;
     currentFilters := {| Filters.type := None; Filters.region := None; Filters.search := "" |};
     allRegions := allRegions app |}.

(** What a method ends with: the thing it shows or opens, or the message it
    hands to [showError]. *)
Inductive Outcome (A : Type) :=
  | Shown (a : A)
  | ShowError (message : string).

Arguments Shown {A} a.
Arguments ShowError {A} message.

(** [loadWineDetails(wineId)]: the wine handed to [updateWineDetails]. *)
Definition loadWineDetails (wineId : string) (app : App) : Outcome Wine :=
  match List.find (fun w => bool_decide (wine_number w = Some wineId)) (wines app) with
  | Some wine => Shown wine
  | None => ShowError "Wine not found"
  end.

(** The address [wine-details.html?id=...&type=...]: the number interpolated
    after [id=], and the [type] parameter when there is one. *)
Record WineLink := {
  link_id : option string;
  link_type : option string
}.

(** [exploreWine(button)], given the text of the name on the card or row of
    the button: the address it navigates to. *)
Definition exploreWine (wineName : string) (app : App) : Outcome WineLink :=
  match List.find (fun w => bool_decide (wine_name w = Some wineName)) (wines app) with
  | Some wine =>
    Shown {| link_id := wine_number wine;
             link_type := if truthy (Filters.type (currentFilters app))
                          then Filters.type (currentFilters app) else None |}
  | None => ShowError "Wine details not available"
  end.

(** Where the back button of the details page leads. *)
Inductive BackTarget :=
  | BackToRegions
  | BackToWines (params : URLParams).

(** [updateBackButton(wine)], given the [type] parameter of the page's
    address: the [href] the button gets. *)
Definition updateBackButton (type : option string) (wine : Wine) : BackTarget :=
  if truthy (region wine) then
    BackToWines {| param_region := region wine;
                   param_type := if truthy type then type else None |}
  else BackToRegions.

(** The cells of a row of the wine table, as [createWineTableRow(wine)] fills
    them; a missing value is interpolated as it is. *)
Record WineTableRow := {
  row_name : option string;
  row_producer : string;
  row_region : option string;
  row_varietals : string;
  row_year : string;
  row_price : string;
  row_link : WineLink
}.

Definition createWineTableRow (app : App) (wine : Wine) : WineTableRow :=
  {| row_name := wine_name wine;
     row_producer := orElse (wine_producer wine) "Producer not specified";
     row_region := region wine;
     row_varietals := orElse (varietals wine) "N/A";
     row_year := extractYear (wine_vintage wine);
     row_price :=
       orElse (wine_price wine)
         (orElse (wine_price_bottle wine) (orElse (wine_price_glass wine) "N/A"));
     row_link := {| link_id := wine_number wine;
                    link_type := if truthy (Filters.type (currentFilters app))
                                 then Filters.type (currentFilters app) else None |} |}.

(** The rows [renderWines()] puts in the table. *)
Definition renderWines (app : App) : list WineTableRow :=
  List.map (createWineTableRow app) (filteredWines app).

(** ** The home page *)

(** The text of the [.wine-count] element of a card: the one the page came
    with, or the one written by the code for a count. *)
Inductive CountText :=
  | PageText
  | WinesText (count : nat).

(** A [.luxury-wine-card] of the home page: the [type] parameter of its
    link ([null] when the link has none), whether its [display] style is
    [block], and the text of its count.  Every card is taken to have a link
    and a [.wine-count] element. *)
Record HomeCard := {
  home_type : option string;
  home_display : bool;
  home_count : CountText
}.

Definition setDisplay (display : bool) (card : HomeCard) : HomeCard :=
  {| home_type := home_type card; home_display := display; home_count := home_count card |}.

Definition setCount (count : nat) (card : HomeCard) : HomeCard :=
  {| home_type := home_type card;
     home_display := home_display card;
     home_count := WinesText count |}.

(** The loop [wineCards.forEach((card, index) => ...)] that [renderHomePage]
    and [updateWineCounts] share, for the array [wineTypes] of each. *)
Definition countCards (wineTypes : list string) (app : App) (cards : list HomeCard)
  : list HomeCard :=
  imap (fun index card =>
    match wineTypes !! index with
    | Some type =>
      if truthyStr type then
        let count :=
          length (List.filter (fun wine => wineMatchesFamily wine type) (wines app)) in
        setCount count card
      else card
    | None => card
    end) cards.

(** [renderHomePage()] *)
Definition renderHomePage : App -> list HomeCard -> list HomeCard :=
  countCards ["ROSSO"; "BIANCO"; "ROSATO"; "ARANCIONE"; "BOLLICINE"; "NON ALCOLICO"].

(** [updateWineCounts()] *)
Definition updateWineCounts : App -> list HomeCard -> list HomeCard :=
  countCards ["ROSSO"; "BIANCO"; "ROSATO"; "BOLLICINE"; "NON ALCOLICO"].

(** [wineMatchesFamily(wine, type)] for the [type] read from a link. *)
Definition wineMatchesLinkType (wine : Wine) (type : option string) : bool :=
  match type with
  | Some type => wineMatchesFamily wine type
  | None => false
  end.

(** One turn of the loop of [applyRegionFilter(region)], for the card at
    [index]. *)
Definition applyRegionFilterCard (r : string) (app : App) (cards : list HomeCard)
    (index : nat) : list HomeCard :=
  match cards !! index with
  | None => cards
  | Some card =>
    let type := home_type card in
    if negb (truthyStr r) then
      updateWineCounts app (<[index := setDisplay true card]> cards)
    else
      let count :=
        length (List.filter (fun wine =>
          wineMatchesLinkType wine type && bool_decide (region wine = Some r)) (wines app)) in
      if Nat.ltb 0 count then <[index := setCount count (setDisplay true card)]> cards
      else <[index := setDisplay false card]> cards
  end.

(** [applyRegionFilter(region)]: the cards after the loop, and the state
    with the region stored in the criteria. *)
Definition applyRegionFilter (r : string) (app : App) (cards : list HomeCard)
  : App * list HomeCard :=
  ({| wines := wines app;
      filteredWines := filteredWines app;
      currentFilters := {| Filters.type := Filters.type (currentFilters app);
                           Filters.region := Some r;
                           Filters.search := Filters.search (currentFilters app) |};
      allRegions := allRegions app |},
   foldl (applyRegionFilterCard r app) cards (seq 0 (length cards))).

(** The names of the six families. *)
Definition familyNames : list string :=
  ["ROSSO"; "BIANCO"; "ROSATO"; "ARANCIONE"; "BOLLICINE"; "NON ALCOLICO"].

(** The count a text stands for. *)
Definition shownCount (card : HomeCard) : nat :=
  match home_count card with
  | WinesText count => count
  | PageText => 0
  end.

(** [wine.varietals && wine.varietals.toLowerCase().includes(text)] *)
Definition varietalsInclude (wine : Wine) (text : string) : bool :=
  match varietals wine with
  | Some v => truthyStr v && includes (toLowerCase v) text
  | None => false
  end.

(** One turn of the loop of [applyVarietalFilter(varietal)], for the card at
    [index]. *)
Definition applyVarietalFilterCard (varietal : string) (app : App) (cards : list HomeCard)
    (index : nat) : list HomeCard :=
  match cards !! index with
  | None => cards
  | Some card =>
    let type := home_type card in
    if negb (truthyStr varietal) then
      updateWineCounts app (<[index := setDisplay true card]> cards)
    else
      let count :=
        length (List.filter (fun wine =>
          wineMatchesLinkType wine type
          && varietalsInclude wine (toLowerCase varietal)) (wines app)) in
      if Nat.ltb 0 count then <[index := setCount count (setDisplay true card)]> cards
      else <[index := setDisplay false card]> cards
  end.

(** [applyVarietalFilter(varietal)]: the cards after the loop, and the value
    stored as [currentFilters.varietal], a property no method reads. *)
Definition applyVarietalFilter (varietal : string) (app : App) (cards : list HomeCard)
  : string * list HomeCard :=
  (varietal, foldl (applyVarietalFilterCard varietal app) cards (seq 0 (length cards))).

(** The callback of the [filter] in [applyIndexSearch]: the operands of [&&]
    and [||] are evaluated from the left, as far as needed; [toLowerCase]
    throws on a missing name or region. *)
Definition indexSearchCallback (search : string) (type : option string) (wine : Wine)
  : option bool :=
  if negb (wineMatchesLinkType wine type) then Some false else
  name ← wine_name wine;
  if includes (toLowerCase name) search then Some true else
  r ← region wine;
  if includes (toLowerCase r) search then Some true else
  Some (varietalsInclude wine search).

(** One turn of the loop of [applyIndexSearch()], for the card at
    [index]. *)
Definition applyIndexSearchCard (app : App) (cards : list HomeCard) (index : nat)
  : option (list HomeCard) :=
  match cards !! index with
  | None => Some cards
  | Some card =>
    let type := home_type card in
    let search := Filters.search (currentFilters app) in
    if negb (truthyStr search) then
      Some (updateWineCounts app (<[index := setDisplay true card]> cards))
    else
      matchingWines ← filterE (indexSearchCallback search type) (wines app);
      Some (if Nat.ltb 0 (length matchingWines)
            then <[index := setCount (length matchingWines) (setDisplay true card)]> cards
            else <[index := setDisplay false card]> cards)
  end.

(** [applyIndexSearch()]: the cards after the loop; an exception ends it. *)
Definition applyIndexSearch (app : App) (cards : list HomeCard) : option (list HomeCard) :=
  foldl (fun result index => cards ← result; applyIndexSearchCard app cards index)
        (Some cards) (seq 0 (length cards)).

(** ** The table of the regions page *)

(** The entries of the object literal [descriptions], in source order. *)
Definition descriptionsEntries : list (string * string) := [
  ("TOSCANA", "Famous for Chianti and Brunello wines");
  ("PIEMONTE", "Home of Barolo and Barbaresco");
  ("VENETO", "Known for Amarone and Prosecco");
  ("SICILIA", "Mediterranean climate, diverse terroir");
  ("LOMBARDIA", "Northern region with Alpine influences");
  ("EMILIA-ROMAGNA", "Rich culinary tradition, Lambrusco");
  ("LAZIO", "Central Italy, Frascati and Est! Est!! Est!!!");
  ("CAMPANIA", "Ancient winemaking traditions");
  ("PUGLIA", "Southern Italy, Primitivo and Negroamaro");
  ("SARDEGNA", "Island wines with unique character")
].

Definition descriptions : gmap string string := list_to_map descriptionsEntries.

Arguments descriptions : simpl never.

(** [getRegionDescription(region)], for a region that names no inherited
    member. *)
Definition getRegionDescription (r : string) : string :=
  orElse (descriptions !! r) "Explore the wines of this region".

(** The entries of the object literal [iconMap], in source order. *)
Definition iconMapEntries : list (string * string) := [
  ("TOSCANA", "fas fa-sun");
  ("TOSCANA (BOLGHERI)", "fas fa-sun");
  ("PIEMONTE", "fas fa-mountain");
  ("TRENTINO ALTO-ADIGE", "fas fa-mountain");
  ("FRIULI-VENEZIA GIULIA", "fas fa-mountain");
  ("VALLE D'AOSTA", "fas fa-mountain");
  ("VENETO", "fas fa-water");
  ("LUGANA DOC (VENETO)", "fas fa-water");
  ("EMILIA-ROMAGNA", "fas fa-city");
  ("LAZIO", "fas fa-city");
  ("LOMBARDIA", "fas fa-water");
  ("LE MARCHE", "fas fa-mountain");
  ("UMBRIA", "fas fa-mountain");
  ("MOLISE", "fas fa-mountain");
  ("ABRUZZO", "fas fa-tree");
  ("CAMPANIA", "fas fa-volcano");
  ("SICILIA", "fas fa-volcano");
  ("PUGLIA", "fas fa-umbrella-beach");
  ("TARANTO IGT (PUGLIA)", "fas fa-umbrella-beach");
  ("CALABRIA", "fas fa-tree");
  ("BASILICATA", "fas fa-mountain");
  ("MATERA DOC (BASILICATA)", "fas fa-mountain");
  ("SARDEGNA", "fas fa-mountain");
  ("LIGURIA", "fas fa-water")
].

Definition iconMap : gmap string string := list_to_map iconMapEntries.

Arguments iconMap : simpl never.

(** [getRegionIcon(region)], for a region that names no inherited member. *)
Definition getRegionIcon (r : string) : string :=
  orElse (iconMap !! r) "fas fa-map-marker-alt".

(** What [renderRegionsTable] renders for one region: the cells of the row
    and the link of its [Explore] anchor. *)
Record RegionRow := {
  table_region_name : string;
  table_region_count : nat;
  table_region_description : string;
  table_href : URLParams
}.

Definition regionRow (app : App) (r : string) : RegionRow :=
  let f := currentFilters app in
  let count :=
    length (List.filter (fun wine =>
      let normalizedWineRegion := normalizeRegionName (region wine) in
      let normalizedFilterRegion := normalizeRegionName (Some r) in
      String.eqb normalizedWineRegion normalizedFilterRegion) (wines app)) in
  let count :=
    match Filters.type f with
    | Some t =>
      if truthyStr t then
        length (List.filter (fun wine =>
          let normalizedWineRegion := normalizeRegionName (region wine) in
          let normalizedFilterRegion := normalizeRegionName (Some r) in
          String.eqb normalizedWineRegion normalizedFilterRegion
          && wineMatchesFamily wine t) (wines app))
      else count
    | None => count
    end in
  let normalizedRegion := normalizeRegionName (Some r) in
  let description := getRegionDescription r in
  {| table_region_name := normalizedRegion;
     table_region_count := count;
     table_region_description := description;
     table_href := {| param_region := Some normalizedRegion;
                      param_type := if truthy (Filters.type f) then Filters.type f else None |} |}.

(** [renderRegionsTable(regions)]: the rows of the table body. *)
Definition renderRegionsTable (app : App) (regions : list string) : list RegionRow :=
  map (regionRow app) regions.

(** [exploreRegion(button)], given the text of the region name on the card or
    row of the button and the [type] parameter of the page's address: the
    address it navigates to. *)
Definition exploreRegion (regionName : string) (wineType : option string) : URLParams :=
  {| param_region := Some regionName;
     param_type := if truthy wineType then wineType else None |}.

(** ** Food pairings *)

(** An item of a pairing list: [{ name, icon }]. *)
Record Pairing := {
  pairing_name : string;
  pairing_icon : string
}.

(** The entries of the object literal [pairings], in source order. *)
Definition pairingsEntries : list (string * list Pairing) := [
  ("ROSSO",
   [ {| pairing_name := "Roasted Meats"; pairing_icon := "fas fa-drumstick-bite" |};
     {| pairing_name := "Aged Cheeses"; pairing_icon := "fas fa-cheese" |};
     {| pairing_name := "Pasta with Red Sauce"; pairing_icon := "fas fa-utensils" |};
     {| pairing_name := "Dark Chocolate"; pairing_icon := "fas fa-cookie-bite" |} ]);
  ("BIANCO",
   [ {| pairing_name := "Seafood"; pairing_icon := "fas fa-fish" |};
     {| pairing_name := "Light Pasta"; pairing_icon := "fas fa-utensils" |};
     {| pairing_name := "Fresh Salads"; pairing_icon := "fas fa-leaf" |};
     {| pairing_name := "Soft Cheeses"; pairing_icon := "fas fa-cheese" |} ]);
  ("ROSATO",
   [ {| pairing_name := "Grilled Fish"; pairing_icon := "fas fa-fish" |};
     {| pairing_name := "Light Appetizers"; pairing_icon := "fas fa-cookie-bite" |};
     {| pairing_name := "Summer Salads"; pairing_icon := "fas fa-leaf" |};
     {| pairing_name := "Fresh Fruits"; pairing_icon := "fas fa-apple-alt" |} ]);
  ("ARANCIONE",
   [ {| pairing_name := "Aged Cheeses"; pairing_icon := "fas fa-cheese" |};
     {| pairing_name := "Spiced Dishes"; pairing_icon := "fas fa-pepper-hot" |};
     {| pairing_name := "Roasted Vegetables"; pairing_icon := "fas fa-carrot" |};
     {| pairing_name := "Cured Meats"; pairing_icon := "fas fa-bacon" |} ]);
  ("BOLLICINE",
   [ {| pairing_name := "Appetizers"; pairing_icon := "fas fa-cookie-bite" |};
     {| pairing_name := "Celebration Foods"; pairing_icon := "fas fa-birthday-cake" |};
     {| pairing_name := "Light Desserts"; pairing_icon := "fas fa-ice-cream" |};
     {| pairing_name := "Fresh Oysters"; pairing_icon := "fas fa-fish" |} ]);
  ("NON ALCOLICO",
   [ {| pairing_name := "Fruit Platters"; pairing_icon := "fas fa-apple-alt" |};
     {| pairing_name := "Light Appetizers"; pairing_icon := "fas fa-cookie-bite" |};
     {| pairing_name := "Salads"; pairing_icon := "fas fa-leaf" |};
     {| pairing_name := "Desserts"; pairing_icon := "fas fa-ice-cream" |} ])
].

Definition pairings : gmap string (list Pairing) := list_to_map pairingsEntries.

Arguments pairings : simpl never.

(** [getFoodPairings(wine)]: [pairings[wine.wine_type] || pairings['ROSSO']].
    A list and an inherited member are truthy; a missing type makes the key
    [undefined] or [null], which names nothing. *)
Definition getFoodPairings (wine : Wine) : option (Value (list Pairing)) :=
  match wine_type wine ≫= getProperty pairings with
  | Some found => Some found
  | None => getProperty pairings "ROSSO"
  end.

(** ** Wine images *)

(** The entries of the object literal [loadWineImages] assigns to
    [this.wineImages], in source order, which is the order of
    [Object.entries]. *)
Definition wineImagesEntries : list (string * string) := [
  ("LAMBRUSCO", "https://www.agraria.org/vini/lambrusco.jpg");
  ("MONTEPULCIANO D'ABRUZZO", "https://www.agraria.org/vini/montepulciano-d-abruzzo.jpg");
  ("CHIANTI CLASSICO", "https://www.agraria.org/vini/chianti-classico.jpg");
  ("BAROLO", "https://www.agraria.org/vini/barolo.jpg");
  ("BRUNELLO DI MONTALCINO", "https://www.agraria.org/vini/brunello-di-montalcino.jpg")
].

Definition wineImages : gmap string string := list_to_map wineImagesEntries.

Arguments wineImages : simpl never.

(** [s.replace(/[*]/g, '')] *)
Fixpoint removeStars (s : string) : string :=
  match s with
  | EmptyString => EmptyString
  | String c t => if Ascii.eqb c "*" then removeStars t else String c (removeStars t)
  end.

(** [s.split(' ')]: the pieces between the spaces, empty ones included. *)
Fixpoint splitSpaces (s : string) : list string :=
  match s with
  | EmptyString => [EmptyString]
  | String c t =>
    if Ascii.eqb c " " then EmptyString :: splitSpaces t
    else match splitSpaces t with
         | word :: words => String c word :: words
         | [] => [String c EmptyString]
         end
  end.

(** The loop of [findWineImage] over the entries that compares the names:
    each turn starts with [wine.wine_name.toLowerCase()], which throws on a
    missing name. *)
Fixpoint partialNameMatch (entries : list (string * string)) (wine : Wine)
  : option (option string) :=
  match entries with
  | [] => Some None
  | (wineName, imageUrl) :: entries =>
    name ← wine_name wine;
    let wineNameLower := toLowerCase name in
    let mappingNameLower := toLowerCase wineName in
    if includes mappingNameLower wineNameLower || includes wineNameLower mappingNameLower
    then Some (Some imageUrl)
    else partialNameMatch entries wine
  end.

(** The loop that compares the producer. *)
Fixpoint partialProducerMatch (entries : list (string * string)) (producerNameLower : string)
  : option string :=
  match entries with
  | [] => None
  | (wineName, imageUrl) :: entries =>
    let mappingNameLower := toLowerCase wineName in
    if includes mappingNameLower producerNameLower
       || includes producerNameLower mappingNameLower
    then Some imageUrl
    else partialProducerMatch entries producerNameLower
  end.

(** The loop that looks for a word of the name in the entries. *)
Fixpoint keywordMatch (entries : list (string * string)) (wineNameWords : list string)
  : option string :=
  match entries with
  | [] => None
  | (wineName, imageUrl) :: entries =>
    let mappingNameLower := toLowerCase wineName in
    if existsb (fun word => Nat.ltb 2 (String.length word) && includes mappingNameLower word)
               wineNameWords
    then Some imageUrl
    else keywordMatch entries wineNameWords
  end.

(** [findWineImage(wine)]: [loaded] tells whether [loadWineImages] has run,
    that is whether [this.wineImages] is set.  The result is [null] or what a
    lookup or a loop found: the address of an image, or an inherited member
    when the name or the producer names one.  A missing name makes the key
    [undefined] or [null], which names nothing. *)
Definition findWineImage (loaded : bool) (wine : Wine) : option (option (Value string)) :=
  if negb loaded then Some None else
  let byName := wine_name wine ≫= getProperty wineImages in
  if truthyValue byName then Some byName else
  let byProducer :=
    if truthy (wine_producer wine)
    then producer ← wine_producer wine;
         getProperty wineImages (trim (removeStars producer))
    else None in
  if truthyValue byProducer then Some byProducer else
  byPartialName ← partialNameMatch wineImagesEntries wine;
  match byPartialName with
  | Some imageUrl => Some (Some (Val imageUrl))
  | None =>
    let byPartialProducer :=
      if truthy (wine_producer wine)
      then producer ← wine_producer wine;
           partialProducerMatch wineImagesEntries (toLowerCase (trim (removeStars producer)))
      else None in
    match byPartialProducer with
    | Some imageUrl => Some (Some (Val imageUrl))
    | None =>
      name ← wine_name wine;
      let wineNameWords := splitSpaces (toLowerCase name) in
      Some (Val <$> keywordMatch wineImagesEntries wineNameWords)
    end
  end.

(** Two numbered wines, and the state after loading them. *)
Definition amarone : Wine := {|
  wine_number := Some "12";
  wine_name := Some "Amarone Classico";
  wine_producer := Some "Allegrini";
  wine_type := Some "ROSSO AMARONE";
  region := Some "VENETO";
  wine_vintage := Some "2017";
  wine_price := Some "0";
  wine_price_bottle := Some "120";
  wine_price_glass := None;
  varietals := Some "Corvina, Rondinella"
|}.

Definition prosecco : Wine := {|
  wine_number := Some "13";
  wine_name := Some "Prosecco Superiore";
  wine_producer := Some "Nino Franco";
  wine_type := Some "BOLLICINE";
  region := Some "VENETO";
  wine_vintage := Some "NV";
  wine_price := Some "44";
  wine_price_bottle := None;
  wine_price_glass := Some "12";
  varietals := None
|}.

Definition numberedCellar : App := loadWineData (Some [amarone; prosecco]) newApp.

(** A home page with a card for each family, as it is before any script
    runs. *)
Definition familyCards : list HomeCard :=
  (fun type => {| home_type := Some type; home_display := true; home_count := PageText |})
    <$> familyNames.

(** The card of Friuli on that page. *)
Definition biancoCard : RegionCard :=
  {| card_href := {| param_type := Some "BIANCO";
                     param_region := Some "FRIULI-VENEZIA GIULIA" |};
     card_title := "FRIULI-VENEZIA GIULIA";
     card_count := 2 |}.

(** Decides a closed, decidable proposition by evaluation. *)
Ltac by_evaluation := apply (bool_decide_unpack _); vm_compute; exact I.

(** * Properties *)

(** ** Strings *)

Lemma append_nil_r (s : string) : s +:+ "" = s.
Proof. induction s; simpl; congruence. Qed.

Lemma append_assoc (a b c : string) : (a +:+ b) +:+ c = a +:+ (b +:+ c).
Proof. induction a; simpl; congruence. Qed.

Lemma startsWith_spec (s p : string) :
  startsWith s p = true <-> exists after, s = p +:+ after.
Proof.
  revert s. induction p as [|a p IH]; intros s; simpl.
  - split; [intros _; by exists s | done].
  - destruct s as [|b s].
    + split; [done | intros [after H]; discriminate].
    + rewrite andb_true_iff, IH. split.
      * intros [Hab [after ->]]. apply Ascii.eqb_eq in Hab as ->. by exists after.
      * intros [after H]. injection H as -> ->. split; [apply Ascii.eqb_refl | by exists after].
Qed.

(** [includes] decides the occurrence of one string in another. *)
Lemma includes_spec (s p : string) :
  includes s p = true <-> Spec.substring p s.
Proof.
  unfold Spec.substring. induction s as [|c s IH].
  - simpl. rewrite orb_false_r, startsWith_spec. split.
    + intros [after H]. by exists "", after.
    + intros [[|? before] [after H]]; [by exists after | discriminate].
  - cbn [includes]. rewrite orb_true_iff, IH, startsWith_spec. split.
    + intros [[after H] | (before & after & H)].
      * by exists "", after.
      * exists (String c before), after. simpl. by rewrite H.
    + intros [[|c' before] [after H]].
      * left. by exists after.
      * right. injection H as -> H. by exists before, after.
Qed.

Lemma includes_false (s p : string) :
  includes s p = false <-> ~ Spec.substring p s.
Proof. rewrite <- includes_spec. by destruct (includes s p). Qed.

Lemma truthyStr_true (s : string) : truthyStr s = true <-> s <> "".
Proof.
  unfold truthyStr. destruct (String.eqb_spec s ""); simpl; split; congruence.
Qed.

Lemma truthyStr_false (s : string) : truthyStr s = false <-> s = "".
Proof.
  unfold truthyStr. destruct (String.eqb_spec s ""); simpl; split; congruence.
Qed.

Lemma arrayIncludes_spec (l : list string) (x : string) :
  arrayIncludes l x = true <-> x ∈ l.
Proof.
  unfold arrayIncludes. rewrite existsb_exists, list_elem_of_In. split.
  - intros [y [Hy Heq]]. apply String.eqb_eq in Heq. by subst.
  - intros H. exists x. split; [done | apply String.eqb_refl].
Qed.

Lemma mapChars_append (f : ascii -> ascii) (a b : string) :
  mapChars f (a +:+ b) = mapChars f a +:+ mapChars f b.
Proof. induction a; simpl; congruence. Qed.

Lemma upperChar_lowerChar (c : ascii) : upperChar (lowerChar c) = upperChar c.
Proof. by destruct c as [[] [] [] [] [] [] [] []]. Qed.

Lemma lowerChar_upperChar (c : ascii) : lowerChar (upperChar c) = lowerChar c.
Proof. by destruct c as [[] [] [] [] [] [] [] []]. Qed.

Lemma toUpperCase_toLowerCase (s : string) :
  toUpperCase (toLowerCase s) = toUpperCase s.
Proof.
  unfold toUpperCase, toLowerCase.
  induction s; simpl; [done | by rewrite upperChar_lowerChar, IHs].
Qed.

Lemma toLowerCase_toUpperCase (s : string) :
  toLowerCase (toUpperCase s) = toLowerCase s.
Proof.
  unfold toUpperCase, toLowerCase.
  induction s; simpl; [done | by rewrite lowerChar_upperChar, IHs].
Qed.

Lemma substring_mapChars (f : ascii -> ascii) (p s : string) :
  Spec.substring p s -> Spec.substring (mapChars f p) (mapChars f s).
Proof.
  intros (before & after & ->). exists (mapChars f before), (mapChars f after).
  by rewrite !mapChars_append.
Qed.

(** Looking for an upper-case text in the upper-cased subject is looking for
    it with the letter case ignored. *)
Lemma substring_upper_noCase (p s : string) :
  toUpperCase p = p ->
  Spec.substring p (toUpperCase s) <-> Spec.substringNoCase p s.
Proof.
  intros Hp. unfold Spec.substringNoCase. split; intros H.
  - apply (substring_mapChars lowerChar) in H.
    fold toLowerCase in H. by rewrite toLowerCase_toUpperCase in H.
  - apply (substring_mapChars upperChar) in H.
    fold toUpperCase in H. by rewrite !toUpperCase_toLowerCase, Hp in H.
Qed.

(** Looking for a lower-case text in the lower-cased subject, likewise. *)
Lemma substring_lower_noCase (p s : string) :
  toLowerCase p = p ->
  Spec.substring p (toLowerCase s) <-> Spec.substringNoCase p s.
Proof. intros Hp. unfold Spec.substringNoCase. by rewrite Hp. Qed.

(** ** The family classifier *)

(** The if-chain of [getWineFamily] is the priority list of section 4.3. *)
Lemma getWineFamily_classify (rawType : option string) :
  getWineFamily rawType = Spec.classify rawType.
Proof.
  destruct rawType as [[|c raw]|]; [done | | done].
  unfold getWineFamily, Spec.classify.
  change (truthyStr (String c raw)) with true. cbn [negb].
  generalize (toUpperCase (String c raw)). intros text.
  unfold Spec.priorities, Spec.firstMatch, existsb.
  rewrite !orb_false_r, !orb_assoc.
  by repeat (destruct (includes text _); cbn [orb]; try reflexivity).
Qed.

(** What the priority list means: the family of a row is returned exactly
    when the row matches and no row before it does. *)
Lemma firstMatch_row (before after : list (list string * WineFamily))
    (needles : list string) (family : WineFamily) (text : string) :
  Forall (fun row => forall needle, needle ∈ row.1 -> ~ Spec.substring needle text) before ->
  (exists needle, needle ∈ needles /\ Spec.substring needle text) ->
  Spec.firstMatch (before ++ (needles, family) :: after) text = family.
Proof.
  intros Hbefore (needle & Hin & Hsub).
  induction Hbefore as [|[needles' family'] before Hrow _ IH]; simpl.
  - assert (existsb (includes text) needles = true) as ->; [|done].
    apply existsb_exists. exists needle. by rewrite <- list_elem_of_In, includes_spec.
  - assert (existsb (includes text) needles' = false) as ->; [|done].
    apply not_true_is_false. rewrite existsb_exists. intros (n & Hn & Hinc).
    apply (Hrow n); [by apply list_elem_of_In | by apply includes_spec].
Qed.

Lemma firstMatch_none (rules : list (list string * WineFamily)) (text : string) :
  Forall (fun row => forall needle, needle ∈ row.1 -> ~ Spec.substring needle text) rules ->
  Spec.firstMatch rules text = ROSSO.
Proof.
  induction 1 as [|[needles family] rules Hrow _ IH]; simpl; [done|].
  assert (existsb (includes text) needles = false) as ->; [|done].
  apply not_true_is_false. rewrite existsb_exists. intros (n & Hn & Hinc).
  apply (Hrow n); [by apply list_elem_of_In | by apply includes_spec].
Qed.

(** C3: the classifier is the priority list of the specification.  A
    missing or empty type is ROSSO; any other type is upper-cased and gets
    the family of the first row of the list one of whose substrings it
    contains, whatever later rows contain, and ROSSO when no row matches; so
    "BOLLICINE ROSSO" is BOLLICINE. *)
Theorem getWineFamily_priority :
  (forall rawType, getWineFamily rawType = Spec.classify rawType)
  /\ (forall raw before needles family after,
        raw <> "" ->
        Spec.priorities = before ++ (needles, family) :: after ->
        Forall (fun row => forall needle, needle ∈ row.1 ->
                  ~ Spec.substring needle (toUpperCase raw)) before ->
        (exists needle, needle ∈ needles /\ Spec.substring needle (toUpperCase raw)) ->
        getWineFamily (Some raw) = family)
  /\ (forall raw,
        Forall (fun row => forall needle, needle ∈ row.1 ->
                  ~ Spec.substring needle (toUpperCase raw)) Spec.priorities ->
        getWineFamily (Some raw) = ROSSO)
  /\ getWineFamily None = ROSSO
  /\ getWineFamily (Some "") = ROSSO
  /\ getWineFamily (Some "BOLLICINE ROSSO") = BOLLICINE.
Proof.
  split_and!; [exact getWineFamily_classify | | | by vm_compute..].
  - intros raw before needles family after Hraw Hrows Hbefore Hrow.
    rewrite getWineFamily_classify. destruct raw as [|c raw]; [done|].
    unfold Spec.classify. rewrite Hrows. by apply firstMatch_row.
  - intros raw Hnone. rewrite getWineFamily_classify.
    destruct raw as [|c raw]; [done|].
    unfold Spec.classify. by apply firstMatch_none.
Qed.

Lemma getWineFamily_priority_witness :
  getWineFamily (Some "Rosato analcolico 0.0") = NON_ALCOLICO.
Proof.
  apply (proj1 (proj2 getWineFamily_priority) "Rosato analcolico 0.0"
           [(["BOLLICINE"], BOLLICINE)]
           ["NON ALCOLICO"; "NON-ALCOHOLIC"; "0.0"] NON_ALCOLICO
           [(["ROSATO"], ROSATO); (["ARANCIONE"], ARANCIONE); (["BIANCO"], BIANCO);
            (["ROSSO"; "AMARONE"; "BAROLO"; "SUPERTUSCAN"; "SUPERIORE"; "RIPASSO"], ROSSO)]).
  - done.
  - reflexivity.
  - apply Forall_singleton. intros needle ->%list_elem_of_singleton.
    apply includes_false. by vm_compute.
  - exists "0.0". split; [by_evaluation|]. apply includes_spec. by vm_compute.
Defined.

(** ** The region normaliser *)

Lemma regionMap_lookup (raw canonical : string) :
  regionMap !! raw = Some canonical <-> (raw, canonical) ∈ regionMapEntries.
Proof.
  unfold regionMap. symmetry. apply elem_of_list_to_map.
  by_evaluation.
Qed.

(** No key and no value of the table is empty, and every value is a key that
    the table maps to itself. *)
Lemma regionMap_entries :
  Forall (fun entry => entry.1 <> "" /\ entry.2 <> ""
                       /\ regionMap !! entry.2 = Some entry.2) regionMapEntries.
Proof. by_evaluation. Qed.

Lemma regionMap_entry (raw canonical : string) :
  regionMap !! raw = Some canonical ->
  raw <> "" /\ canonical <> "" /\ regionMap !! canonical = Some canonical.
Proof.
  intros H%regionMap_lookup.
  by apply (proj1 (Forall_forall _ _) regionMap_entries (raw, canonical)).
Qed.

Lemma normalizeRegionName_lookup (raw : string) :
  normalizeRegionName (Some raw) =
  match regionMap !! raw with Some canonical => canonical | None => raw end.
Proof.
  unfold normalizeRegionName, orElse.
  destruct (regionMap !! raw) as [canonical|] eqn:Hl.
  - apply regionMap_entry in Hl as (Hraw & Hc & _).
    apply truthyStr_true in Hraw, Hc. by rewrite Hraw, Hc.
  - destruct (truthyStr raw) eqn:Hraw; [done|].
    by apply truthyStr_false in Hraw.
Qed.

Lemma objectPrototypeNames_not_keys :
  Forall (fun name => match regionMap !! name with Some _ => false | None => true end = true)
         objectPrototypeNames.
Proof. by_evaluation. Qed.

(** What [regionMap[regionName]] gives. *)
Lemma getProperty_regionMap (raw : string) :
  getProperty regionMap raw =
  match regionMap !! raw with
  | Some canonical => Some (Val canonical)
  | None => if bool_decide (raw ∈ objectPrototypeNames) then Some (Member raw) else None
  end.
Proof.
  unfold getProperty. destruct (regionMap !! raw); [done|].
  destruct (arrayIncludes objectPrototypeNames raw) eqn:Hin.
  - apply arrayIncludes_spec in Hin. by rewrite bool_decide_eq_true_2.
  - rewrite bool_decide_eq_false_2; [done|].
    intros H%arrayIncludes_spec. congruence.
Qed.

(** The string-valued normaliser is the code's on every name that names no
    inherited member. *)
Lemma normalizeRegionName_exact (regionName : option string) :
  (forall raw, regionName = Some raw -> raw ∉ objectPrototypeNames) ->
  normalizeRegionNameValue regionName = Val (normalizeRegionName regionName).
Proof.
  destruct regionName as [raw|]; [|done]. intros Hout.
  unfold normalizeRegionNameValue, normalizeRegionName, orElse.
  destruct (truthyStr raw); [|done]. cbn [negb].
  rewrite getProperty_regionMap.
  destruct (regionMap !! raw) as [canonical|]; [by destruct (truthyStr canonical)|].
  by rewrite bool_decide_eq_false_2 by by apply Hout.
Qed.

(** No spelling the validity filter accepts names an inherited member. *)
Lemma validRegions_not_inherited :
  Forall (fun x => x ∉ objectPrototypeNames) validRegions.
Proof. by_evaluation. Qed.

(** C4 at a failing input: "constructor" is no key of the table, and
    [regionMap["constructor"]] is the member the object literal inherits
    from [Object.prototype], a function; it is truthy, so the normaliser
    returns it and not the string "constructor" the claim asks for.  The
    same holds of every name of an inherited member.  For every other
    string the claim holds: the table's value for a key, the string itself
    otherwise, and the three spellings of Friuli-Venezia Giulia have one
    canonical name. *)
Theorem normalizeRegionName_inherited_key :
  (forall canonical, ("constructor", canonical) ∉ regionMapEntries)
  /\ normalizeRegionNameValue (Some "constructor") = Member "constructor"
  /\ normalizeRegionNameValue (Some "constructor") <> Val "constructor"
  /\ (forall raw,
        (forall canonical, (raw, canonical) ∈ regionMapEntries ->
           normalizeRegionNameValue (Some raw) = Val canonical)
        /\ ((forall canonical, (raw, canonical) ∉ regionMapEntries) ->
            raw ∉ objectPrototypeNames ->
            normalizeRegionNameValue (Some raw) = Val raw)
        /\ ((forall canonical, (raw, canonical) ∉ regionMapEntries) ->
            raw ∈ objectPrototypeNames ->
            normalizeRegionNameValue (Some raw) = Member raw))
  /\ normalizeRegionNameValue (Some "FRIULI") = Val "FRIULI-VENEZIA GIULIA"
  /\ normalizeRegionNameValue (Some "FRIULI VENEZIA GIULIA") = Val "FRIULI-VENEZIA GIULIA"
  /\ normalizeRegionNameValue (Some "FRIULI-VENEZIA GIULIA") = Val "FRIULI-VENEZIA GIULIA".
Proof.
  split_and!; try by vm_compute.
  - intros canonical H%regionMap_lookup. by vm_compute in H.
  - intros raw.
    assert ((forall canonical, (raw, canonical) ∉ regionMapEntries) ->
            regionMap !! raw = None) as Hnokey.
    { intros Hnot. destruct (regionMap !! raw) as [canonical|] eqn:Hl; [|done].
      by apply regionMap_lookup, Hnot in Hl. }
    split_and!.
    + intros canonical H%regionMap_lookup.
      destruct (regionMap_entry _ _ H) as (Hraw%truthyStr_true & Hc%truthyStr_true & _).
      unfold normalizeRegionNameValue. rewrite Hraw, getProperty_regionMap, H, Hc. done.
    + intros Hl%Hnokey Hout.
      unfold normalizeRegionNameValue. rewrite getProperty_regionMap, Hl.
      rewrite (bool_decide_eq_false_2 _ Hout).
      destruct (truthyStr raw) eqn:Hraw; [done|].
      by apply truthyStr_false in Hraw as ->.
    + intros Hl%Hnokey Hin.
      unfold normalizeRegionNameValue. rewrite getProperty_regionMap, Hl.
      rewrite (bool_decide_eq_true_2 _ Hin).
      assert (truthyStr raw = true) as ->; [|done].
      apply truthyStr_true. intros ->. revert Hin. by_evaluation.
Qed.

(** A value of the table is normalised to itself. *)
Lemma normalizeRegionName_canonical (raw canonical : string) :
  regionMap !! raw = Some canonical ->
  normalizeRegionName (Some canonical) = canonical.
Proof.
  intros (_ & _ & Hc)%regionMap_entry.
  by rewrite normalizeRegionName_lookup, Hc.
Qed.


(** The same, also when the region normalised was missing. *)
Lemma normalizeRegionName_twice (x : option string) :
  normalizeRegionName (Some (normalizeRegionName x)) = normalizeRegionName x.
Proof.
  destruct x as [x|]; [|done].
  rewrite (normalizeRegionName_lookup x).
  destruct (regionMap !! x) as [canonical|] eqn:Hl.
  - by apply (normalizeRegionName_canonical x).
  - by rewrite normalizeRegionName_lookup, Hl.
Qed.

(** The canonical names are the values of the table. *)
Lemma canonicalRegions_values (c : string) :
  c ∈ Spec.canonicalRegions <-> c ∈ regionMapEntries.*2.
Proof.
  assert (Spec.canonicalRegions ⊆ regionMapEntries.*2
          /\ regionMapEntries.*2 ⊆ Spec.canonicalRegions) as [H1 H2]
    by (split; by_evaluation).
  split; [apply H1 | apply H2].
Qed.

(** ** The validity filter *)

Lemma validityFilter_filter (records : list Wine) :
  validityFilter records = List.filter validWine records.
Proof. reflexivity. Qed.

Lemma validityFilter_singleton (r : Wine) :
  validityFilter [r] <> [] <-> validWine r = true.
Proof.
  rewrite validityFilter_filter. simpl. by destruct (validWine r).
Qed.

Lemma elem_of_validityFilter (records : list Wine) (r : Wine) :
  r ∈ validityFilter records <-> r ∈ records /\ validWine r = true.
Proof.
  rewrite validityFilter_filter, !list_elem_of_In. apply filter_In.
Qed.

Lemma presentAndNot_spec (v : option string) (lits : list string) :
  presentAndNot v lits = true <-> Spec.present v lits.
Proof.
  unfold presentAndNot, Spec.present. destruct v as [s|].
  - rewrite andb_true_iff, truthyStr_true, forallb_forall. split.
    + intros [Hs Hall]. exists s. split_and!; [done..|].
      intros Hin%list_elem_of_In. apply Hall in Hin.
      by rewrite String.eqb_refl in Hin.
    + intros (s' & [= <-] & Hs & Hnot). split; [done|].
      intros lit Hin%list_elem_of_In.
      destruct (String.eqb_spec s lit) as [->|]; [done | done].
  - split; [done | by intros (s & ? & _)].
Qed.

Lemma hasValidRegion_spec (r : Wine) :
  hasValidRegion r = true <-> exists x, region r = Some x /\ x ∈ validRegions.
Proof.
  unfold hasValidRegion. destruct (region r) as [x|].
  - rewrite andb_true_iff, arrayIncludes_spec, truthyStr_true. split.
    + intros [_ Hin]. by exists x.
    + intros (x' & [= <-] & Hin). split; [|done].
      intros ->. revert Hin. by_evaluation.
  - split; [done | by intros (x & ? & _)].
Qed.

(** The test of the type, as the code makes it: on the upper-cased type. *)
Lemma isNotSangriaOrCocktail_upper (r : Wine) :
  isNotSangriaOrCocktail r = true <->
  exists t, wine_type r = Some t /\ t <> ""
            /\ ~ Spec.substring "SANGRIA" (toUpperCase t)
            /\ ~ Spec.substring "COCKTAIL" (toUpperCase t).
Proof.
  unfold isNotSangriaOrCocktail. destruct (wine_type r) as [t|].
  - rewrite !andb_true_iff, !negb_true_iff, !includes_false, truthyStr_true. split.
    + intros [[Ht Hs] Hc]. by exists t.
    + by intros (t' & [= <-] & Ht & Hs & Hc).
  - split; [done | by intros (t & ? & _)].
Qed.

Lemma isNotSangriaOrCocktail_spec (r : Wine) :
  isNotSangriaOrCocktail r = true <->
  exists t, wine_type r = Some t /\ t <> ""
            /\ ~ Spec.substringNoCase "SANGRIA" t
            /\ ~ Spec.substringNoCase "COCKTAIL" t.
Proof.
  unfold isNotSangriaOrCocktail. destruct (wine_type r) as [t|].
  - rewrite !andb_true_iff, !negb_true_iff, !includes_false, truthyStr_true.
    rewrite !substring_upper_noCase by reflexivity. split.
    + intros [[Ht Hs] Hc]. by exists t.
    + by intros (t' & [= <-] & Ht & Hs & Hc).
  - split; [done | by intros (t & ? & _)].
Qed.

(** The region of a retained record normalises to a canonical name. *)
Lemma validRegions_canonical (x : string) :
  x ∈ validRegions -> normalizeRegionName (Some x) ∈ Spec.canonicalRegions.
Proof.
  revert x. apply Forall_forall. by_evaluation.
Qed.

(** C2, as the code has it: a record passes the validity filter exactly when
    its name is present, non-empty and no placeholder; its producer is
    present, non-empty and not "UNKNOWN PRODUCER"; one of the three prices is
    present, non-empty and not "0"; its region, as written in the record, is
    one of the 25 spellings of [validRegions]; and its type is present,
    non-empty and, once put in upper case by [toUpperCase], contains neither
    "SANGRIA" nor "COCKTAIL".  The region of such a record normalises to a
    canonical name. *)
Theorem validityFilter_retains_iff (r : Wine) :
  (validityFilter [r] <> [] <->
     Spec.present (wine_name r) ["WINE NAME"; "WINE PRICE"; "VINTAGE"]
     /\ Spec.present (wine_producer r) ["UNKNOWN PRODUCER"]
     /\ (Spec.present (wine_price r) ["0"]
         \/ Spec.present (wine_price_bottle r) ["0"]
         \/ Spec.present (wine_price_glass r) ["0"])
     /\ (exists x, region r = Some x /\ x ∈ validRegions)
     /\ (exists t, wine_type r = Some t /\ t <> ""
                   /\ ~ Spec.substring "SANGRIA" (toUpperCase t)
                   /\ ~ Spec.substring "COCKTAIL" (toUpperCase t)))
  /\ (validityFilter [r] <> [] ->
      normalizeRegionName (region r) ∈ Spec.canonicalRegions).
Proof.
  assert (validWine r = true <->
     Spec.present (wine_name r) ["WINE NAME"; "WINE PRICE"; "VINTAGE"]
     /\ Spec.present (wine_producer r) ["UNKNOWN PRODUCER"]
     /\ (Spec.present (wine_price r) ["0"]
         \/ Spec.present (wine_price_bottle r) ["0"]
         \/ Spec.present (wine_price_glass r) ["0"])
     /\ (exists x, region r = Some x /\ x ∈ validRegions)
     /\ (exists t, wine_type r = Some t /\ t <> ""
                   /\ ~ Spec.substring "SANGRIA" (toUpperCase t)
                   /\ ~ Spec.substring "COCKTAIL" (toUpperCase t))) as Hiff.
  { unfold validWine, hasValidName, hasValidProducer, hasValidPrice.
    rewrite !andb_true_iff, !orb_true_iff, !presentAndNot_spec,
      hasValidRegion_spec, isNotSangriaOrCocktail_upper.
    tauto. }
  rewrite validityFilter_singleton. split; [done|].
  intros (_ & _ & _ & (x & -> & Hx) & _)%Hiff.
  by apply validRegions_canonical.
Qed.

(** C2, as stated, fails twice.  The wine [verdicchio], whose region is
    written "MARCHE", satisfies every clause of the claim (its region
    normalises to the canonical "LE MARCHE", itself an accepted spelling),
    and the filter drops it.  The wine [etnaRosso] has no type, so its type
    contains neither "SANGRIA" nor "COCKTAIL", and the filter drops it
    too. *)
Lemma validityFilter_drops_claimed_valid :
  (Spec.ValidWine verdicchio /\ validityFilter [verdicchio] = [])
  /\ (Spec.ValidWine etnaRosso /\ validityFilter [etnaRosso] = [])
  /\ normalizeRegionName (region verdicchio) ∈ validRegions.
Proof.
  split_and!; [split | by vm_compute | split | by vm_compute | by_evaluation].
  - apply presentAndNot_spec. by vm_compute.
  - apply presentAndNot_spec. by vm_compute.
  - left. apply presentAndNot_spec. by vm_compute.
  - by_evaluation.
  - intros t Ht. vm_compute in Ht. injection Ht as <-.
    rewrite <- !substring_upper_noCase by reflexivity.
    rewrite <- !includes_false. by vm_compute.
  - apply presentAndNot_spec. by vm_compute.
  - apply presentAndNot_spec. by vm_compute.
  - left. apply presentAndNot_spec. by vm_compute.
  - by_evaluation.
  - intros t Ht. by vm_compute in Ht.
Qed.

Lemma validityFilter_retains_iff_witness :
  validityFilter [sampleWine "Barolo Riserva" "Marchesi" "ROSSO SUPERIORE" "PIEMONTE" "85"] <> []
  /\ normalizeRegionName (Some "PIEMONTE") ∈ Spec.canonicalRegions.
Proof.
  pose proof (validityFilter_retains_iff
    (sampleWine "Barolo Riserva" "Marchesi" "ROSSO SUPERIORE" "PIEMONTE" "85")) as [_ H].
  assert (validityFilter [sampleWine "Barolo Riserva" "Marchesi" "ROSSO SUPERIORE" "PIEMONTE" "85"] <> [])
    as Hne by (by vm_compute).
  exact (conj Hne (H Hne)).
Defined.

(** C10: a retained record has a type that is present and not empty; a
    record whose type is missing or empty is dropped. *)
Theorem validityFilter_requires_type :
  (forall records r, r ∈ validityFilter records ->
     exists t, wine_type r = Some t /\ t <> "")
  /\ (forall r, wine_type r = None \/ wine_type r = Some "" ->
        validityFilter [r] = []).
Proof.
  split.
  - intros records r [_ Hv]%elem_of_validityFilter.
    unfold validWine in Hv. rewrite !andb_true_iff in Hv.
    destruct Hv as [_ (t & Ht & Hne & _)%isNotSangriaOrCocktail_spec].
    by exists t.
  - intros r Hr. rewrite validityFilter_filter. simpl.
    assert (isNotSangriaOrCocktail r = false) as Hn.
    { unfold isNotSangriaOrCocktail. by destruct Hr as [-> | ->]. }
    unfold validWine. by rewrite Hn, andb_false_r.
Qed.

Lemma validityFilter_requires_type_witness : validityFilter [etnaRosso] = [].
Proof.
  apply (proj2 validityFilter_requires_type). by left.
Defined.

(** ** The query engine *)

Lemma filter_sublist {A : Type} (f : A -> bool) (l : list A) :
  List.filter f l `sublist_of` l.
Proof.
  induction l as [|x l IH]; simpl; [constructor|].
  destruct (f x); by constructor.
Qed.

(** When the callback throws on no element, [filterE] is [filter]. *)
Lemma filterE_total {A : Type} (p : A -> option bool) (l : list A) :
  Forall (fun x => is_Some (p x)) l ->
  filterE p l = Some (List.filter (fun x => default false (p x)) l).
Proof.
  induction 1 as [|x l [b Hb] _ IH]; simpl; [done|].
  rewrite Hb, IH. simpl. by destruct b.
Qed.

(** A valid wine has a name and a region, so the search test does not
    throw on it. *)
Lemma validWine_name_region (w : Wine) :
  validWine w = true ->
  exists name r, wine_name w = Some name /\ region w = Some r /\ r ∈ validRegions.
Proof.
  unfold validWine. rewrite !andb_true_iff.
  intros [[[[(r & Hr & Hin)%hasValidRegion_spec Hn] _] _] _].
  apply presentAndNot_spec in Hn as (name & Hname & _).
  by exists name, r.
Qed.

Lemma matchesSearch_valid (search : string) (w : Wine) :
  validWine w = true -> is_Some (matchesSearch search w).
Proof.
  intros (name & r & Hn & Hr & _)%validWine_name_region.
  unfold matchesSearch. rewrite Hn, Hr. simpl.
  destruct (negb (truthyStr search)); [done|].
  destruct (includes (toLowerCase name) search); [done|].
  by destruct (includes (toLowerCase r) search).
Qed.

Lemma applyFiltersCallback_valid (f : Filters.t) (w : Wine) :
  validWine w = true -> is_Some (applyFiltersCallback f w).
Proof.
  intros [b Hb]%(matchesSearch_valid (Filters.search f)).
  unfold applyFiltersCallback. rewrite Hb. by eexists.
Qed.

(** On valid wines [applyFilters] does not throw, and sets
    [this.filteredWines] to the wines the callback accepts. *)
Lemma applyFilters_valid (app : App) :
  Forall (fun w => validWine w = true) (wines app) ->
  applyFilters app =
  Some {| wines := wines app;
          filteredWines :=
            List.filter (fun w => default false (applyFiltersCallback (currentFilters app) w))
                        (wines app);
          currentFilters := currentFilters app;
          allRegions := allRegions app |}.
Proof.
  intros Hvalid. unfold applyFilters. rewrite filterE_total; [done|].
  eapply Forall_impl; [exact Hvalid|]. intros w. apply applyFiltersCallback_valid.
Qed.

(** C6: on valid wines the query returns, leaves [this.wines] and the
    filter criteria as they were, and its result is a subsequence of
    [this.wines]: nothing added, nothing repeated, the order kept. *)
Theorem applyFilters_subsequence (app : App) :
  Forall (fun w => validWine w = true) (wines app) ->
  exists app',
    applyFilters app = Some app'
    /\ wines app' = wines app
    /\ currentFilters app' = currentFilters app
    /\ filteredWines app' `sublist_of` wines app.
Proof.
  intros Hvalid. eexists. split; [by apply applyFilters_valid|].
  split_and!; [done..|]. apply filter_sublist.
Qed.

Lemma applyFilters_subsequence_witness :
  exists app',
    applyFilters
      (setSearch "Barolo"
         (loadWineData
            (Some [sampleWine "Barolo Riserva" "Marchesi" "ROSSO SUPERIORE" "PIEMONTE" "85";
                   sampleWine "Fake" "Nobody" "SANGRIA" "TOSCANA" "20";
                   sampleWine "Soave" "Pieropan" "BIANCO" "VENETO" "38"]) newApp))
    = Some app'
    /\ filteredWines app'
       = [sampleWine "Barolo Riserva" "Marchesi" "ROSSO SUPERIORE" "PIEMONTE" "85"].
Proof.
  destruct (applyFilters_subsequence
    (setSearch "Barolo"
       (loadWineData
          (Some [sampleWine "Barolo Riserva" "Marchesi" "ROSSO SUPERIORE" "PIEMONTE" "85";
                 sampleWine "Fake" "Nobody" "SANGRIA" "TOSCANA" "20";
                 sampleWine "Soave" "Pieropan" "BIANCO" "VENETO" "38"]) newApp)))
    as (app' & Happ & _).
  - by_evaluation.
  - exists app'. split; [exact Happ|].
    vm_compute in Happ. injection Happ as <-. reflexivity.
Defined.

Lemma unsetOr_spec (v : option string) (test : string -> bool) :
  unsetOr v test = true <->
  Spec.absent v \/ exists s, v = Some s /\ test s = true.
Proof.
  unfold unsetOr, Spec.absent. destruct v as [s|]; [|by split; [left; left|]].
  destruct (truthyStr s) eqn:Hs.
  - apply truthyStr_true in Hs. split.
    + intros H. right. by exists s.
    + intros [[? | [= ->]] | (s' & [= <-] & H)]; done.
  - apply truthyStr_false in Hs as ->. split; [by left; right | done].
Qed.

Lemma wineMatchesFamily_spec (w : Wine) (family : string) :
  wineMatchesFamily w family = true <-> Spec.familyMatches w family.
Proof.
  unfold wineMatchesFamily, Spec.familyMatches.
  by rewrite String.eqb_eq, getWineFamily_classify.
Qed.

Lemma substring_empty (p : string) : Spec.substring p "" -> p = "".
Proof.
  intros ([|? before] & after & H); [|discriminate].
  simpl in H. by destruct p.
Qed.

Lemma toLowerCase_idempotent (s : string) :
  toLowerCase (toLowerCase s) = toLowerCase s.
Proof.
  unfold toLowerCase. induction s as [|c s IH]; simpl; [done|].
  rewrite IH. f_equal. by destruct c as [[] [] [] [] [] [] [] []].
Qed.

(** The text the search box stores is in lower case. *)
Lemma setSearch_lower (text : string) (app : App) :
  toLowerCase (Filters.search (currentFilters (setSearch text app)))
  = Filters.search (currentFilters (setSearch text app)).
Proof. apply toLowerCase_idempotent. Qed.

(** The search test of [applyFilters], on a wine with a name and a region
    and for a search text in lower case. *)
Lemma matchesSearch_spec (search : string) (w : Wine) (name r : string) :
  wine_name w = Some name -> region w = Some r ->
  toLowerCase search = search ->
  matchesSearch search w = Some true <->
  search = ""
  \/ Spec.substringNoCase search name
  \/ Spec.substringNoCase search r
  \/ Spec.substringNoCase search (default "" (varietals w)).
Proof.
  intros Hn Hr Hlow. unfold matchesSearch. rewrite Hn, Hr. simpl.
  destruct (truthyStr search) eqn:Hs; simpl.
  2: { apply truthyStr_false in Hs. split; [by left | done]. }
  apply truthyStr_true in Hs.
  rewrite <- !(substring_lower_noCase search) by done.
  rewrite <- !includes_spec.
  destruct (includes (toLowerCase name) search); [by split; [right; left|]|].
  destruct (includes (toLowerCase r) search); [by split; [right; right; left|]|].
  destruct (varietals w) as [v|]; simpl.
  - destruct (truthyStr v) eqn:Hv; simpl.
    + split; [intros [= H]; by do 3 right|].
      intros [?|[?|[?|H]]]; try done. by rewrite H.
    + apply truthyStr_false in Hv as ->.
      split; [done|]. intros [?|[?|[?|H]]]; try done. by destruct search.
  - split; [done|]. intros [?|[?|[?|H]]]; try done. by destruct search.
Qed.

(** What the callback of [applyFilters] accepts: the rule of section 4.4
    with the regions compared as they are written. *)
Lemma applyFiltersCallback_spec (f : Filters.t) (w : Wine) :
  validWine w = true ->
  toLowerCase (Filters.search f) = Filters.search f ->
  default false (applyFiltersCallback f w) = true <-> Spec.matchesWith eq f w.
Proof.
  intros Hv Hlow.
  destruct (validWine_name_region w Hv) as (name & r & Hn & Hr & _).
  pose proof (matchesSearch_spec (Filters.search f) w name r Hn Hr Hlow) as Hsearch.
  destruct (matchesSearch_valid (Filters.search f) w Hv) as [b Hb].
  unfold applyFiltersCallback, Spec.matchesWith. rewrite Hb. simpl.
  rewrite !andb_true_iff, !unsetOr_spec.
  rewrite Hn, Hr. simpl. rewrite <- Hsearch.
  assert (b = true <-> matchesSearch (Filters.search f) w = Some true) as ->
    by (rewrite Hb; split; congruence).
  assert ((exists s, Filters.type f = Some s /\ wineMatchesFamily w s = true)
          <-> exists family, Filters.type f = Some family /\ Spec.familyMatches w family) as ->.
  { split; intros (s & ? & ?); exists s; by rewrite wineMatchesFamily_spec in *. }
  assert ((exists s, Filters.region f = Some s /\ bool_decide (Some r = Some s) = true)
          <-> Some r = Filters.region f) as ->.
  { split.
    - by intros (s & -> & H%bool_decide_eq_true).
    - intros <-. exists r. by rewrite bool_decide_eq_true. }
  tauto.
Qed.

(** X1: On valid wines and a lower-case search text, [applyFilters] keeps the
    wines that meet the rule of section 4.4 read with the regions compared
    as written. *)
Lemma applyFilters_retains_iff (app : App) :
  Forall (fun w => validWine w = true) (wines app) ->
  toLowerCase (Filters.search (currentFilters app)) = Filters.search (currentFilters app) ->
  exists app',
    applyFilters app = Some app'
    /\ forall w, w ∈ filteredWines app' <->
                 w ∈ wines app /\ Spec.matchesWith eq (currentFilters app) w.
Proof.
  intros Hvalid Hlow. eexists. split; [by apply applyFilters_valid|].
  intros w. cbn [filteredWines]. rewrite !list_elem_of_In, filter_In, <- list_elem_of_In.
  split; intros [Hin H]; (split; [done|]);
    apply applyFiltersCallback_spec; try done;
    by apply (proj1 (Forall_forall _ _) Hvalid).
Qed.

(** What the callback of [renderWinesPage] accepts: the rule of section 4.4
    for the family and the region of the criteria, regions normalised. *)
Lemma winesPageCallback_spec (f : Filters.t) (w : Wine) :
  truthy (Filters.region f) = true ->
  winesPageCallback f w = true <->
  Spec.matches {| Filters.type := Filters.type f;
                  Filters.region := Filters.region f;
                  Filters.search := "" |} w.
Proof.
  intros Hr. unfold winesPageCallback, Spec.matches, Spec.matchesWith.
  cbn [Filters.type Filters.region Filters.search].
  rewrite andb_true_iff, unsetOr_spec, String.eqb_eq.
  assert ((exists s, Filters.type f = Some s /\ wineMatchesFamily w s = true)
          <-> exists family, Filters.type f = Some family
                             /\ Spec.familyMatches w family) as ->.
  { split; intros (s & ? & ?); exists s; by rewrite wineMatchesFamily_spec in *. }
  assert (~ Spec.absent (Filters.region f)) as Hpresent.
  { destruct (Filters.region f) as [s|]; [|done].
    apply truthyStr_true in Hr. by intros [? | [= ->]]. }
  tauto.
Qed.

(** [renderWinesPage] keeps the wines that meet the rule of section 4.4 for
    the family and the region of the criteria, regions normalised. *)
Lemma renderWinesPage_retains_iff (app : App) (w : Wine) :
  truthy (Filters.region (currentFilters app)) = true ->
  w ∈ filteredWines (renderWinesPage app) <->
  w ∈ wines app
  /\ Spec.matches {| Filters.type := Filters.type (currentFilters app);
                     Filters.region := Filters.region (currentFilters app);
                     Filters.search := "" |} w.
Proof.
  intros Hr. unfold renderWinesPage. rewrite Hr. cbn [negb filteredWines].
  rewrite !list_elem_of_In, filter_In, <- list_elem_of_In.
  by rewrite winesPageCallback_spec.
Qed.

(** C1 at a failing input: the wine [ribolla] is valid and meets the
    matching rule for the criteria (no family, region "FRIULI-VENEZIA
    GIULIA", search "ribolla"), since "FRIULI" normalises to that region;
    [applyFilters] compares the regions as written and drops it, while
    [renderWinesPage], which normalises both, lists it. *)
Theorem applyFilters_drops_region_variant :
  wines friuliPage = [ribolla]
  /\ Spec.matches friuliCriteria ribolla
  /\ filteredWines <$> applyFilters friuliPage = Some []
  /\ filteredWines (renderWinesPage friuliPage) = [ribolla].
Proof.
  split_and!; [by vm_compute | | by vm_compute | by vm_compute].
  split_and!.
  - by left; left.
  - right. by vm_compute.
  - right; left. apply substring_lower_noCase, includes_spec; by vm_compute.
Qed.

(** ** Region listings *)

Lemma elem_of_setAdd (set : list string) (x y : string) :
  y ∈ setAdd set x <-> y ∈ set \/ y = x.
Proof.
  unfold setAdd. destruct (arrayIncludes set x) eqn:Hin.
  - apply arrayIncludes_spec in Hin. split; [by left | by intros [?| ->]].
  - by rewrite elem_of_app, list_elem_of_singleton.
Qed.

Lemma NoDup_setAdd (set : list string) (x : string) :
  NoDup set -> NoDup (setAdd set x).
Proof.
  intros Hset. unfold setAdd. destruct (arrayIncludes set x) eqn:Hin; [done|].
  apply NoDup_app. split_and!; [done | | apply NoDup_singleton].
  intros y Hy ->%list_elem_of_singleton.
  apply arrayIncludes_spec in Hy. congruence.
Qed.

(** Filling a [Set] from a list: the members are those of the list, once
    each. *)
Lemma elem_of_fold_setAdd {A : Type} (g : A -> string) (l : list A) (set : list string) (y : string) :
  y ∈ fold_left (fun set a => setAdd set (g a)) l set <->
  y ∈ set \/ exists a, a ∈ l /\ y = g a.
Proof.
  revert set. induction l as [|a l IH]; intros set; simpl.
  - split; [by left | intros [?|(a & Ha & _)]; [done | by apply elem_of_nil in Ha]].
  - rewrite IH, elem_of_setAdd. split.
    + intros [[?| ->]|(b & Hb & ->)]; [by left | right; exists a | right; exists b];
        split; try done; [left | by right].
    + intros [?|(b & Hb & ->)]; [by left; left|].
      apply elem_of_cons in Hb as [->|Hb]; [by left; right | right; by exists b].
Qed.

Lemma NoDup_fold_setAdd {A : Type} (g : A -> string) (l : list A) (set : list string) :
  NoDup set -> NoDup (fold_left (fun set a => setAdd set (g a)) l set).
Proof.
  revert set. induction l as [|a l IH]; intros set Hset; simpl; [done|].
  by apply IH, NoDup_setAdd.
Qed.

Lemma elem_of_sort (l : list string) (x : string) : x ∈ sort l <-> x ∈ l.
Proof. unfold sort. by rewrite merge_sort_Permutation. Qed.

Lemma sort_sorted (l : list string) : Sorted String.le (sort l).
Proof. apply (Sorted_merge_sort String.le). Qed.

Lemma NoDup_sort (l : list string) : NoDup l -> NoDup (sort l).
Proof. unfold sort. by rewrite merge_sort_Permutation. Qed.

(** What [renderRegionsPage] stores in [this.allRegions]. *)
Lemma renderRegionsPage_allRegions (app : App) :
  exists regions,
    allRegions (renderRegionsPage app) = Some regions
    /\ Sorted String.le regions
    /\ NoDup regions
    /\ forall r, r ∈ regions <->
         exists w, w ∈ winesToUse app /\ hasRegion w = true
                   /\ r = normalizeRegionName (region w).
Proof.
  eexists. split; [reflexivity|]. split_and!.
  - apply sort_sorted.
  - apply NoDup_sort, NoDup_fold_setAdd, NoDup_nil_2.
  - intros r. rewrite elem_of_sort, elem_of_fold_setAdd. split.
    + intros [Hr|(w & Hw & ->)]; [by apply elem_of_nil in Hr|].
      apply list_elem_of_In, filter_In in Hw as [Hw Hreg].
      exists w. by rewrite list_elem_of_In.
    + intros (w & Hw & Hreg & ->). right. exists w. split; [|done].
      apply list_elem_of_In, filter_In. by rewrite <- list_elem_of_In.
Qed.

(** Every accepted spelling has a region in the sense of [hasRegion], and its
    normal form is a name without [%]. *)
Lemma validRegions_plain :
  Forall (fun x => truthyStr x && negb (String.eqb (trim x) "") = true
                   /\ includes (normalizeRegionName (Some x)) "%" = false
                   /\ normalizeRegionName (Some x) <> "") validRegions.
Proof. by_evaluation. Qed.

Lemma validWine_hasRegion (w : Wine) : validWine w = true -> hasRegion w = true.
Proof.
  intros (name & r & _ & Hr & Hin)%validWine_name_region.
  unfold hasRegion. rewrite Hr.
  by apply (proj1 (Forall_forall _ _) validRegions_plain r).
Qed.

(** X2: [showRegionFilter] lists the regions of the wines as they are written,
    each spelling once, in ascending order. *)
Lemma showRegionFilter_regions (app : App) :
  Sorted String.le (showRegionFilter app)
  /\ NoDup (showRegionFilter app)
  /\ forall r, r ∈ showRegionFilter app <->
       exists w, w ∈ wines app /\ hasRegion w = true /\ region w = Some r.
Proof.
  unfold showRegionFilter, newSet. split_and!.
  - apply sort_sorted.
  - apply NoDup_sort, (NoDup_fold_setAdd id), NoDup_nil_2.
  - intros r. rewrite elem_of_sort, (elem_of_fold_setAdd id).
    split.
    + intros [Hr|(x & (w & Hw & Hreg)%list_elem_of_omap & ->)];
        [by apply elem_of_nil in Hr|].
      apply list_elem_of_In, filter_In in Hw as [Hw Hh].
      exists w. by rewrite list_elem_of_In.
    + intros (w & Hw & Hh & Hreg). right. exists r. split; [|done].
      apply list_elem_of_omap. exists w. split; [|done].
      apply list_elem_of_In, filter_In. by rewrite <- list_elem_of_In.
Qed.

(** C9 at a failing input: with one wine written "FRIULI" and one written
    "FRIULI-VENEZIA GIULIA", two spellings of one canonical region, the filter
    dropdown of [showRegionFilter] offers both, while the regions page of
    [renderRegionsPage] lists the canonical name once. *)
Theorem showRegionFilter_lists_spelling_variants :
  wines friuliCellar = [ribolla; friulano]
  /\ showRegionFilter friuliCellar = ["FRIULI"; "FRIULI-VENEZIA GIULIA"]
  /\ normalizeRegionName (Some "FRIULI") = normalizeRegionName (Some "FRIULI-VENEZIA GIULIA")
  /\ allRegions (renderRegionsPage friuliCellar) = Some ["FRIULI-VENEZIA GIULIA"].
Proof. split_and!; by vm_compute. Qed.

(** ** Counts on the region cards *)

Lemma handleURLParameters_wines (decode : string -> option string)
    (params : URLParams) (app app' : App) :
  handleURLParameters decode params app = Some app' -> wines app' = wines app.
Proof.
  unfold handleURLParameters. intros H.
  by apply bind_Some in H as (r & _ & [= <-]).
Qed.

(** The count of a card, written with the callback of [renderWinesPage]. *)
Lemma regionCard_count (app : App) (r : string) :
  card_count (regionCard app r) =
  length (List.filter
    (winesPageCallback {| Filters.type := Filters.type (currentFilters app);
                          Filters.region := Some r;
                          Filters.search := "" |}) (wines app)).
Proof.
  unfold regionCard, winesPageCallback, unsetOr. cbn [card_count Filters.type Filters.region].
  destruct (Filters.type (currentFilters app)) as [t|].
  - destruct (truthyStr t); [done|].
    f_equal. apply filter_ext. intros w. by rewrite andb_true_r.
  - f_equal. apply filter_ext. intros w. by rewrite andb_true_r.
Qed.

(** A card of the regions page stands for a region that is the normal form
    of the region of a valid wine: a canonical name, not empty, without [%]. *)
Lemma filterRegions_card (app : App) (text : string) (card : RegionCard) :
  Forall (fun w => validWine w = true) (wines app) ->
  card ∈ filterRegions (setSearch text (renderRegionsPage app)) ->
  exists r,
    card = regionCard app r
    /\ normalizeRegionName (Some r) = r
    /\ truthyStr r = true
    /\ includes r "%" = false.
Proof.
  intros Hvalid Hcard.
  unfold filterRegions in Hcard. cbn [allRegions setSearch renderRegionsPage] in Hcard.
  apply list_elem_of_In, in_map_iff in Hcard as (r & <- & Hr).
  apply filter_In in Hr as [Hr _].
  apply list_elem_of_In, elem_of_sort, elem_of_fold_setAdd in Hr
    as [Hr|(w & Hw & ->)]; [by apply elem_of_nil in Hr|].
  apply list_elem_of_In, filter_In in Hw as [Hw _].
  assert (w ∈ wines app) as Hin.
  { unfold winesToUse in Hw. apply list_elem_of_In.
    destruct (Filters.type (currentFilters app)) as [t|]; [|done].
    destruct (truthyStr t); [|done]. by apply filter_In in Hw as [Hw _]. }
  apply (proj1 (Forall_forall _ _) Hvalid) in Hin.
  destruct (validWine_name_region w Hin) as (_ & x & _ & Hx & Hvr).
  destruct (proj1 (Forall_forall _ _) validRegions_plain x Hvr) as (_ & Hplain & Hne).
  rewrite Hx. exists (normalizeRegionName (Some x)). split_and!.
  - reflexivity.
  - apply normalizeRegionName_twice.
  - by apply truthyStr_true.
  - done.
Qed.

Lemma loadWineData_valid (data_wines : option (list Wine)) (app : App) :
  Forall (fun w => validWine w = true) (wines (loadWineData data_wines app)).
Proof.
  apply Forall_forall. intros w Hw. cbn [wines loadWineData] in Hw.
  by apply list_elem_of_In, filter_In in Hw as [_ Hw].
Qed.

Section Navigation.

(** The browser's [decodeURIComponent]: all that is used of it is that a
    text without [%] decodes to itself. *)
Variable decodeURIComponent : string -> option string.
Hypothesis decode_plain :
  forall s, includes s "%" = false -> decodeURIComponent s = Some s.

(** C5: on the regions page, whatever the family in its address and the
    text typed in its search box, the link of a card opens a wines page whose
    listing has as many wines as the card counts, and the listing holds
    exactly the wines that meet the matching rule for the region and the
    family of the link. *)
Theorem region_card_count_is_listing_length
    (data_wines : option (list Wine)) (params : URLParams) (text : string)
    (regions : App) (card : RegionCard) :
  init decodeURIComponent RegionsPage data_wines params = Some regions ->
  card ∈ filterRegions (setSearch text regions) ->
  exists listing,
    init decodeURIComponent WinesPage data_wines (card_href card) = Some listing
    /\ length (filteredWines listing) = card_count card
    /\ forall w, w ∈ filteredWines listing <->
         w ∈ wines listing
         /\ Spec.matches {| Filters.type := param_type (card_href card);
                            Filters.region := param_region (card_href card);
                            Filters.search := "" |} w.
Proof.
  unfold init. intros Hinit Hcard.
  apply bind_Some in Hinit as (app & Happ & [= <-]).
  apply handleURLParameters_wines in Happ as Hwines.
  apply filterRegions_card in Hcard as (r & -> & Hfix & Hne & Hplain);
    [|rewrite Hwines; apply loadWineData_valid].
  (* opening the link *)
  rewrite regionCard_count.
  unfold regionCard. cbn [card_href]. rewrite Hfix.
  unfold handleURLParameters. cbn [param_region param_type].
  rewrite Hne, (decode_plain r Hplain).
  cbn [fmap option_fmap option_map mbind option_bind].
  cbn [currentFilters Filters.type Filters.search
       wines filteredWines allRegions loadWineData newApp].
  set (type := Filters.type (currentFilters app)).
  assert ((if truthy (if truthy type then type else None)
           then if truthy type then type else None else None)
          = (if truthy type then type else None)) as ->
    by (by destruct (truthy type) eqn:Ht; [rewrite Ht|]).
  eexists. split; [reflexivity|].
  unfold renderCurrentPage, renderWinesPage.
  cbn [currentFilters Filters.region truthy]. rewrite Hne.
  cbn [negb filteredWines wines currentFilters]. split.
  - f_equal. rewrite Hwines. cbn [wines loadWineData].
    apply filter_ext. intros w'.
    unfold winesPageCallback. cbn [Filters.type Filters.region].
    f_equal. unfold truthy, unsetOr.
    destruct type as [t|]; [|reflexivity].
    destruct (truthyStr t) eqn:Ht; rewrite ?Ht; reflexivity.
  - intros w'. rewrite !list_elem_of_In, filter_In, <- list_elem_of_In.
    by rewrite winesPageCallback_spec.
Qed.

End Navigation.

Lemma region_card_count_is_listing_length_witness :
  exists listing,
    init plainDecoder WinesPage (Some [ribolla; friulano])
         {| param_type := Some "BIANCO"; param_region := Some "FRIULI-VENEZIA GIULIA" |}
    = Some listing
    /\ length (filteredWines listing) = 2.
Proof.
  assert (forall s, includes s "%" = false -> plainDecoder s = Some s) as Hplain
    by (intros s Hs; unfold plainDecoder; by rewrite Hs).
  destruct (region_card_count_is_listing_length plainDecoder Hplain
           (Some [ribolla; friulano])
           {| param_type := Some "BIANCO"; param_region := None |}
           "" biancoRegionsPage
           {| card_href := {| param_type := Some "BIANCO";
                              param_region := Some "FRIULI-VENEZIA GIULIA" |};
              card_title := "FRIULI-VENEZIA GIULIA";
              card_count := 2 |})
    as (listing & Hlisting & Hlength & _).
  - by vm_compute.
  - apply list_elem_of_In. vm_compute. by left.
  - by exists listing.
Defined.

(** ** Year extraction *)

Section Run.
Import RegExp.

Implicit Types (r : RegExp.t) (prev p : option ascii) (s text rest : string).

Lemma run_Empty prev s text p rest :
  In (text, (p, rest)) (run Empty prev s) <-> text = "" /\ p = prev /\ rest = s.
Proof. simpl. split; [intros [[= <- <- <-]|[]]; done | intros (-> & -> & ->); by left]. Qed.

Lemma run_Char c prev s text p rest :
  In (text, (p, rest)) (run (Char c) prev s) <->
  s = String c rest /\ text = String c "" /\ p = Some c.
Proof.
  simpl. destruct s as [|c' s']; [by split; [|intros [? _]]|].
  destruct (Ascii.eqb_spec c c') as [<-|Hne]; simpl.
  - split; [intros [[= <- <- <-]|[]]; done | intros ([= <-] & -> & ->); by left].
  - split; [done | intros ([= ? _] & _); congruence].
Qed.

Lemma run_Digit prev s text p rest :
  In (text, (p, rest)) (run Digit prev s) <->
  exists c, isDigit c = true /\ s = String c rest /\ text = String c "" /\ p = Some c.
Proof.
  simpl. destruct s as [|c' s']; [by split; [|intros (c & _ & ? & _)]|].
  destruct (isDigit c') eqn:Hd; simpl.
  - split; [intros [[= <- <- <-]|[]]; by exists c'|].
    intros (c & _ & [= <- <-] & -> & ->). by left.
  - split; [done | intros (c & Hc & [= <- _] & _); congruence].
Qed.

Lemma run_WordBoundary prev s text p rest :
  In (text, (p, rest)) (run WordBoundary prev s) <->
  xorb (isWordAt prev) (isWordAt (head s)) = true
  /\ text = "" /\ p = prev /\ rest = s.
Proof.
  simpl. destruct (xorb _ _); simpl.
  - split; [intros [[= <- <- <-]|[]]; done | intros (_ & -> & -> & ->); by left].
  - split; [done | by intros [? _]].
Qed.

Lemma run_Seq r1 r2 prev s text p rest :
  In (text, (p, rest)) (run (Seq r1 r2) prev s) <->
  exists text1 p1 s1 text2,
    In (text1, (p1, s1)) (run r1 prev s)
    /\ In (text2, (p, rest)) (run r2 p1 s1)
    /\ text = text1 +:+ text2.
Proof.
  cbn [run]. rewrite in_flat_map. split.
  - intros ([text1 [p1 s1]] & H1 & H2). apply in_map_iff in H2 as ([text2 [p2 s2]] & [= <- <- <-] & H2).
    by exists text1, p1, s1, text2.
  - intros (text1 & p1 & s1 & text2 & H1 & H2 & ->).
    exists (text1, (p1, s1)). split; [done|].
    apply in_map_iff. by exists (text2, (p, rest)).
Qed.

Lemma run_Alt r1 r2 prev s text p rest :
  In (text, (p, rest)) (run (Alt r1 r2) prev s) <->
  In (text, (p, rest)) (run r1 prev s) \/ In (text, (p, rest)) (run r2 prev s).
Proof. cbn [run]. apply in_app_iff. Qed.

(** A literal of two code units. *)
Lemma run_literal2 a b prev s text p rest :
  In (text, (p, rest)) (run (literal (String a (String b ""))) prev s) <->
  s = String a (String b rest) /\ text = String a (String b "") /\ p = Some b.
Proof.
  cbn [literal]. rewrite run_Seq. split.
  - intros (text1 & p1 & s1 & text2 & (-> & -> & ->)%run_Char & H2 & ->).
    apply run_Seq in H2 as (t1 & p1 & s2 & t2 & (-> & -> & ->)%run_Char
                             & (-> & -> & ->)%run_Empty & ->).
    done.
  - intros (-> & -> & ->).
    exists (String a ""), (Some a), (String b rest), (String b "").
    split_and!; [by apply run_Char | | done].
    apply run_Seq. exists (String b ""), (Some b), rest, "".
    split_and!; [by apply run_Char | by apply run_Empty | done].
Qed.

(** Two digits. *)
Lemma run_digits2 prev s text p rest :
  In (text, (p, rest)) (run (times 2 Digit) prev s) <->
  exists c d, isDigit c = true /\ isDigit d = true
              /\ s = String c (String d rest)
              /\ text = String c (String d "") /\ p = Some d.
Proof.
  cbn [times]. rewrite run_Seq. split.
  - intros (text1 & p1 & s1 & text2 & (c & Hc & -> & -> & ->)%run_Digit & H2 & ->).
    apply run_Seq in H2 as (t1 & p1 & s2 & t2 & (d & Hd & -> & -> & ->)%run_Digit
                             & (-> & -> & ->)%run_Empty & ->).
    by exists c, d.
  - intros (c & d & Hc & Hd & -> & -> & ->).
    exists (String c ""), (Some c), (String d rest), (String d "").
    split_and!; [apply run_Digit; by exists c | | done].
    apply run_Seq. exists (String d ""), (Some d), rest, "".
    split_and!; [apply run_Digit; by exists d | by apply run_Empty | done].
Qed.

Lemma isDigit_isWord c : isDigit c = true -> isWord c = true.
Proof. unfold isWord. intros ->. by rewrite orb_true_r. Qed.

(** The matches of the year expression at a position: a year that starts
    there, with a word boundary before it and after it. *)
Lemma run_yearRegExp prev s y rest :
  (exists p, In (y, (p, rest)) (run yearRegExp prev s)) <->
  s = y +:+ rest /\ Spec.yearShape y
  /\ isWordAt prev = false /\ isWordAt (head rest) = false.
Proof.
  unfold yearRegExp, Spec.yearShape. split.
  - intros (p & H).
    apply run_Seq in H as (t0 & p0 & s0 & t1 & (Hb0 & -> & -> & ->)%run_WordBoundary & H & ->).
    apply run_Seq in H as (t1' & p1 & s1 & t2 & Hcentury & H & ->).
    apply run_Seq in H as (t2' & p2 & s2 & t3 & (c & d & Hc & Hd & -> & -> & ->)%run_digits2
                            & (Hb1 & -> & -> & ->)%run_WordBoundary & ->).
    cbn [isWordAt] in Hb1. rewrite (isDigit_isWord d Hd) in Hb1.
    apply run_Alt in Hcentury as [(-> & -> & ->)%run_literal2|(-> & -> & ->)%run_literal2];
      cbn [head isWordAt] in Hb0;
      change (isWord _) with true in Hb0;
      (split_and!;
       [ reflexivity
       | exists c, d; split_and!;
         [first [left; reflexivity | right; reflexivity] | done..]
       | by destruct (isWordAt prev)
       | by destruct (isWordAt (head _)) ]).
  - intros (-> & (c & d & Hy & Hc & Hd) & Hprev & Hrest).
    exists (Some d).
    assert (exists a b, ((a = "1" /\ b = "9") \/ (a = "2" /\ b = "0"))%char
                        /\ y = String a (String b (String c (String d ""))))
      as (a & b & Hab & ->)
      by (destruct Hy as [-> | ->]; do 2 eexists; (split; [|reflexivity]); tauto).
    apply run_Seq.
    exists "", prev, (String a (String b (String c (String d rest)))),
           (String a (String b (String c (String d "")))).
    split_and!; [|  | done].
    { apply run_WordBoundary. split_and!; [|done..].
      rewrite Hprev. cbn [head isWordAt]. by destruct Hab as [[-> _]|[-> _]]. }
    apply run_Seq.
    exists (String a (String b "")), (Some b), (String c (String d rest)),
           (String c (String d "")).
    split_and!; [| | done].
    { apply run_Alt. destruct Hab as [[-> ->]|[-> ->]]; [left | right];
        by apply run_literal2. }
    apply run_Seq. exists (String c (String d "")), (Some d), rest, "".
    split_and!; [apply run_digits2; by exists c, d | | done].
    apply run_WordBoundary. split_and!; [|done..].
    cbn [isWordAt]. by rewrite (isDigit_isWord d Hd), Hrest.
Qed.

End Run.

Lemma extractYear_match (v : string) :
  extractYear (Some v) = default "N/A" (RegExp.match_ v yearRegExp).
Proof. by destruct v. Qed.

(** The scan of [match]: the result is the year at the first position where
    one stands between word boundaries, and there is no result only when no
    position has one. *)
Lemma matchFrom_year (s : string) (prev : option ascii) :
  match RegExp.matchFrom yearRegExp prev s with
  | Some y =>
    exists before after,
      s = before +:+ y +:+ after /\ Spec.yearShape y
      /\ RegExp.isWordAt (unitBefore prev before) = false
      /\ RegExp.isWordAt (RegExp.head after) = false
      /\ forall before' y' after',
           s = before' +:+ y' +:+ after' -> Spec.yearShape y' ->
           RegExp.isWordAt (unitBefore prev before') = false ->
           RegExp.isWordAt (RegExp.head after') = false ->
           String.length before <= String.length before'
  | None =>
    forall before' y' after',
      s = before' +:+ y' +:+ after' -> Spec.yearShape y' ->
      RegExp.isWordAt (unitBefore prev before') = false ->
      RegExp.isWordAt (RegExp.head after') = false -> False
  end.
Proof.
  revert prev. induction s as [|c s IH]; intros prev; cbn [RegExp.matchFrom].
  - destruct (RegExp.run yearRegExp prev "") as [|[y [p rest]] l] eqn:Hrun.
    + intros [|? before'] y' after' Hs Hshape Hprev Hafter; [|discriminate].
      assert (exists p, In (y', (p, after')) (RegExp.run yearRegExp prev "")) as [p Hin]
        by (by apply run_yearRegExp).
      by rewrite Hrun in Hin.
    + assert (exists p, In (y, (p, rest)) (RegExp.run yearRegExp prev "")) as Hin
        by (exists p; rewrite Hrun; by left).
      apply run_yearRegExp in Hin as (Hs & Hshape & Hprev & Hafter).
      exists "", rest. split_and!; try done. intros; simpl; lia.
  - destruct (RegExp.run yearRegExp prev (String c s)) as [|[y [p rest]] l] eqn:Hrun.
    + assert (forall y' after', String c s = y' +:+ after' -> Spec.yearShape y' ->
                RegExp.isWordAt prev = false ->
                RegExp.isWordAt (RegExp.head after') = false -> False) as Hhere.
      { intros y' after' Hs Hshape Hprev Hafter.
        assert (exists p, In (y', (p, after')) (RegExp.run yearRegExp prev (String c s)))
          as [p Hin] by (by apply run_yearRegExp).
        by rewrite Hrun in Hin. }
      specialize (IH (Some c)).
      destruct (RegExp.matchFrom yearRegExp (Some c) s) as [y|].
      * destruct IH as (before & after & -> & Hshape & Hprev & Hafter & Hfirst).
        exists (String c before), after. split_and!; try done.
        intros [|c' before'] y' after' Hs Hshape' Hprev' Hafter'.
        { exfalso. by apply (Hhere y' after'). }
        injection Hs as <- Hs. simpl. apply le_n_S. by apply (Hfirst before' y' after').
      * intros [|c' before'] y' after' Hs Hshape' Hprev' Hafter'.
        { by apply (Hhere y' after'). }
        injection Hs as <- Hs. by apply (IH before' y' after').
    + assert (exists p, In (y, (p, rest)) (RegExp.run yearRegExp prev (String c s))) as Hin
        by (exists p; rewrite Hrun; by left).
      apply run_yearRegExp in Hin as (Hs & Hshape & Hprev & Hafter).
      exists "", rest. split_and!; try done. intros; simpl; lia.
Qed.

(** C7, as the code has it: the result is the first run of four digits
    starting with 19 or 20 that stands between word boundaries, and "N/A"
    when the vintage has no such run or is missing; "Vintage 2018 Reserve"
    gives "2018" and "NV" gives "N/A". *)
Theorem extractYear_word_delimited :
  extractYear None = "N/A"
  /\ (forall v,
        (exists before after,
           yearBetween v before (extractYear (Some v)) after
           /\ forall before' y' after',
                yearBetween v before' y' after' ->
                String.length before <= String.length before')
        \/ (extractYear (Some v) = "N/A"
            /\ forall before' y' after', ~ yearBetween v before' y' after'))
  /\ extractYear (Some "Vintage 2018 Reserve") = "2018"
  /\ extractYear (Some "NV") = "N/A".
Proof.
  split_and!; [done | | by vm_compute | by vm_compute].
  intros v. rewrite extractYear_match. unfold RegExp.match_.
  pose proof (matchFrom_year v None) as H.
  destruct (RegExp.matchFrom yearRegExp None v) as [y|]; cbn [default from_option id].
  - left. destruct H as (before & after & Hv & Hshape & Hprev & Hafter & Hfirst).
    exists before, after. split; [done|].
    intros before' y' after' (Hv' & Hshape' & Hprev' & Hafter').
    by apply (Hfirst before' y' after').
  - right. split; [done|].
    intros before' y' after' (Hv' & Hshape' & Hprev' & Hafter').
    by apply (H before' y' after').
Qed.

Lemma yearShape_2018 : Spec.yearShape "2018".
Proof. exists "1"%char, "8"%char. split_and!; [by right | done..]. Qed.

(** C7, as stated, fails: "MV2018" contains the run 2018, and it is the
    first, but no word boundary comes before it and the code answers
    "N/A". *)
Lemma extractYear_misses_attached_year :
  Spec.firstYear "MV2018" "2018"
  /\ extractYear (Some "MV2018") = "N/A"
  /\ ~ Spec.extractYearResult "MV2018" (extractYear (Some "MV2018")).
Proof.
  split_and!.
  - exists "MV", "". split_and!; [done | apply yearShape_2018 |].
    intros [|a [|b before']] y' after' Hv (c & d & Hy & _); simpl; [..|lia].
    + by destruct Hy as [-> | ->].
    + by destruct Hy as [-> | ->].
  - by vm_compute.
  - change (extractYear (Some "MV2018")) with "N/A".
    intros [(before & after & _ & (c & d & Hy & _) & _) | [_ Hnone]].
    + by destruct Hy.
    + apply (Hnone "2018" yearShape_2018). apply includes_spec. by vm_compute.
Qed.

(** * Further properties of the data layer *)

(** ** Filter dropdowns *)

(** X3: [showVarietalFilter] lists the varietal texts of the wines as they are
    written, each text once, in ascending order; a wine with no varietals or
    a blank text adds nothing. *)
Theorem showVarietalFilter_varietals (app : App) :
  Sorted String.le (showVarietalFilter app)
  /\ NoDup (showVarietalFilter app)
  /\ forall v, v ∈ showVarietalFilter app <->
       exists w, w ∈ wines app /\ varietals w = Some v /\ v <> "" /\ trim v <> "".
Proof.
  unfold showVarietalFilter, newSet. split_and!.
  - apply sort_sorted.
  - apply NoDup_sort, (NoDup_fold_setAdd id), NoDup_nil_2.
  - intros v. rewrite elem_of_sort, (elem_of_fold_setAdd id). split.
    + intros [Hv|(x & (w & Hw & Hvar)%list_elem_of_omap & ->)];
        [by apply elem_of_nil in Hv|].
      apply list_elem_of_In, filter_In in Hw as [Hw Hh].
      unfold hasVarietals in Hh. rewrite Hvar in Hh.
      apply andb_true_iff in Hh as [Hne Htrim].
      exists w. rewrite list_elem_of_In. split_and!; try done.
      * by apply truthyStr_true.
      * apply negb_true_iff in Htrim. by destruct (String.eqb_spec (trim x) "").
    + intros (w & Hw & Hvar & Hne & Htrim). right. exists v. split; [|done].
      apply list_elem_of_omap. exists w. split; [|done].
      apply list_elem_of_In, filter_In. rewrite <- list_elem_of_In. split; [done|].
      unfold hasVarietals. rewrite Hvar. apply andb_true_iff. split.
      * by apply truthyStr_true.
      * apply negb_true_iff. by destruct (String.eqb_spec (trim v) "").
Qed.

(** ** Exceptions of the query *)

Lemma filterE_None {A : Type} (p : A -> option bool) (l : list A) :
  filterE p l = None <-> exists x, x ∈ l /\ p x = None.
Proof.
  induction l as [|x l IH]; simpl.
  - split; [done | intros (x & Hx & _); by apply elem_of_nil in Hx].
  - destruct (p x) as [b|] eqn:Hb; simpl.
    + destruct (filterE p l) as [r|]; simpl.
      * split; [done|]. intros (y & [->|Hy]%elem_of_cons & Hp); [congruence|].
        assert (Some r = None) by (apply IH; by exists y). done.
      * split; [|done]. intros _. destruct (proj1 IH eq_refl) as (y & Hy & Hp).
        exists y. split; [by right | done].
    + split; [|done]. intros _. exists x. split; [by left | done].
Qed.

Lemma matchesSearch_None (search : string) (w : Wine) :
  matchesSearch search w = None <->
  search <> ""
  /\ (wine_name w = None
      \/ exists name, wine_name w = Some name
                      /\ ~ Spec.substring search (toLowerCase name)
                      /\ region w = None).
Proof.
  unfold matchesSearch. destruct (truthyStr search) eqn:Hs; simpl.
  2: { apply truthyStr_false in Hs. split; [done | by intros [? _]]. }
  apply truthyStr_true in Hs.
  destruct (wine_name w) as [name|]; simpl; [|split; [by split; [|left] | done]].
  destruct (includes (toLowerCase name) search) eqn:Hinc.
  - apply includes_spec in Hinc. split; [done|].
    intros [_ [?|(n & [= <-] & Hn & _)]]; done.
  - apply includes_false in Hinc.
    destruct (region w) as [r|]; simpl.
    + split; [by destruct (includes (toLowerCase r) search)|].
      intros [_ [?|(n & _ & _ & ?)]]; done.
    + split; [|done]. intros _. split; [done|]. right. by exists name.
Qed.

(** X4: [applyFilters] throws exactly when a search text is set and some wine
    has no name, or has a name the text does not occur in and no region. *)
Theorem applyFilters_throws_iff (app : App) :
  applyFilters app = None <->
  Filters.search (currentFilters app) <> ""
  /\ exists w, w ∈ wines app
       /\ (wine_name w = None
           \/ exists name, wine_name w = Some name
                /\ ~ Spec.substring (Filters.search (currentFilters app)) (toLowerCase name)
                /\ region w = None).
Proof.
  unfold applyFilters.
  destruct (filterE _ (wines app)) as [filtered|] eqn:Hf; simpl.
  - split; [done|]. intros (Hs & w & Hw & Hthrows).
    assert (filterE (applyFiltersCallback (currentFilters app)) (wines app) = None) as Hnone.
    { apply filterE_None. exists w. split; [done|].
      unfold applyFiltersCallback.
      by rewrite (proj2 (matchesSearch_None _ w) (conj Hs Hthrows)). }
    congruence.
  - split; [|done]. intros _.
    apply filterE_None in Hf as (w & Hw & Hcb).
    unfold applyFiltersCallback in Hcb.
    destruct (matchesSearch _ w) as [b|] eqn:Hm; [done|].
    apply matchesSearch_None in Hm as [Hs Hthrows].
    split; [done|]. by exists w.
Qed.

(** X5: With no criterion set, as after [clearAllFilters], [applyFilters] keeps
    every wine, whatever fields the wines lack. *)
Theorem applyFilters_no_criteria (app : App) :
  truthy (Filters.type (currentFilters app)) = false ->
  truthy (Filters.region (currentFilters app)) = false ->
  Filters.search (currentFilters app) = "" ->
  applyFilters app =
  Some {| wines := wines app;
          filteredWines := wines app;
          currentFilters := currentFilters app;
          allRegions := allRegions app |}.
Proof.
  intros Ht Hr Hs. unfold applyFilters.
  assert (forall w, applyFiltersCallback (currentFilters app) w = Some true) as Hcb.
  { intros w. unfold applyFiltersCallback, matchesSearch, unsetOr. rewrite Hs. simpl.
    destruct (Filters.type (currentFilters app)) as [t|];
      destruct (Filters.region (currentFilters app)) as [r|]; simpl in *;
      by rewrite ?Ht, ?Hr. }
  assert (forall l, filterE (applyFiltersCallback (currentFilters app)) l = Some l) as ->; [|done].
  induction l as [|w l IH]; simpl; [done|]. by rewrite Hcb, IH.
Qed.

Lemma applyFilters_no_criteria_witness :
  filteredWines <$> applyFilters (clearAllFilters friuliPage) = Some [ribolla].
Proof.
  rewrite (applyFilters_no_criteria (clearAllFilters friuliPage));
    [by vm_compute | reflexivity..].
Defined.

Lemma applyFilters_retains_iff_witness :
  exists app',
    applyFilters (setSearch "FRIULANO" friuliCellar) = Some app'
    /\ (friulano ∈ filteredWines app' <->
        friulano ∈ wines (setSearch "FRIULANO" friuliCellar)
        /\ Spec.matchesWith eq (currentFilters (setSearch "FRIULANO" friuliCellar)) friulano).
Proof.
  destruct (applyFilters_retains_iff (setSearch "FRIULANO" friuliCellar))
    as (app' & Happ & Hiff).
  - by_evaluation.
  - apply setSearch_lower.
  - exists app'. split; [exact Happ | apply Hiff].
Defined.

Lemma renderWinesPage_retains_iff_witness :
  ribolla ∈ filteredWines (renderWinesPage friuliPage) <->
  ribolla ∈ wines friuliPage
  /\ Spec.matches {| Filters.type := None;
                     Filters.region := Some "FRIULI-VENEZIA GIULIA";
                     Filters.search := "" |} ribolla.
Proof.
  apply (renderWinesPage_retains_iff friuliPage ribolla). reflexivity.
Defined.

(** ** Wine details *)

Lemma find_first {A : Type} (f : A -> bool) (l : list A) :
  match List.find f l with
  | Some x =>
    exists before after,
      l = before ++ x :: after /\ f x = true /\ forall y, y ∈ before -> f y = false
  | None => forall y, y ∈ l -> f y = false
  end.
Proof.
  induction l as [|a l IH]; simpl.
  - intros y Hy. by apply elem_of_nil in Hy.
  - destruct (f a) eqn:Ha.
    + exists [], l. split_and!; [done..|]. intros y Hy. by apply elem_of_nil in Hy.
    + destruct (List.find f l) as [x|].
      * destruct IH as (before & after & -> & Hx & Hbefore).
        exists (a :: before), after. split_and!; [done..|].
        intros y [->|Hy]%elem_of_cons; [done | by apply Hbefore].
      * intros y [->|Hy]%elem_of_cons; [done | by apply IH].
Qed.

(** X6: [loadWineDetails] shows the first wine of [this.wines] that has the
    number asked for, and reports "Wine not found" exactly when no wine has
    it. *)
Theorem loadWineDetails_first (wineId : string) (app : App) :
  (loadWineDetails wineId app = ShowError "Wine not found" <->
     forall w, w ∈ wines app -> wine_number w <> Some wineId)
  /\ (forall wine, loadWineDetails wineId app = Shown wine ->
        exists before after,
          wines app = before ++ wine :: after
          /\ wine_number wine = Some wineId
          /\ forall w, w ∈ before -> wine_number w <> Some wineId).
Proof.
  unfold loadWineDetails.
  pose proof (find_first (fun w => bool_decide (wine_number w = Some wineId)) (wines app)) as H.
  destruct (List.find _ (wines app)) as [wine|]; split.
  - split; [done|]. intros Hnone.
    destruct H as (before & after & Hw & Hn%bool_decide_eq_true & _).
    exfalso. apply (Hnone wine); [|done]. rewrite Hw. apply elem_of_app. right. by left.
  - intros wine' [= <-]. destruct H as (before & after & Hw & Hn%bool_decide_eq_true & Hb).
    exists before, after. split_and!; [done..|].
    intros w Hin. specialize (Hb w Hin). by apply bool_decide_eq_false in Hb.
  - split; [|done]. intros _ w Hin. specialize (H w Hin).
    by apply bool_decide_eq_false in H.
  - done.
Qed.

(** X7: When no other wine of [this.wines] has the name or the number of a
    wine, the Explore button of its row navigates to the address of the
    row's own link, and the details page opened there shows that wine. *)
Theorem exploreWine_opens_the_wine (app : App) (wine : Wine) (name number : string) :
  wine ∈ wines app ->
  wine_name wine = Some name ->
  wine_number wine = Some number ->
  (forall w, w ∈ wines app -> wine_name w = Some name -> w = wine) ->
  (forall w, w ∈ wines app -> wine_number w = Some number -> w = wine) ->
  exploreWine name app = Shown (row_link (createWineTableRow app wine))
  /\ link_id (row_link (createWineTableRow app wine)) = Some number
  /\ loadWineDetails number app = Shown wine.
Proof.
  intros Hin Hname Hnumber Hnames Hnumbers. split_and!; [|done|].
  - unfold exploreWine.
    pose proof (find_first (fun w => bool_decide (wine_name w = Some name)) (wines app)) as H.
    destruct (List.find _ (wines app)) as [w|].
    + destruct H as (before & after & Hw & Hn%bool_decide_eq_true & _).
      assert (w = wine) as -> by
        (apply Hnames; [rewrite Hw; apply elem_of_app; right; by left | done]).
      done.
    + apply H in Hin. by rewrite bool_decide_eq_false in Hin.
  - unfold loadWineDetails.
    pose proof (find_first (fun w => bool_decide (wine_number w = Some number)) (wines app)) as H.
    destruct (List.find _ (wines app)) as [w|].
    + destruct H as (before & after & Hw & Hn%bool_decide_eq_true & _).
      assert (w = wine) as -> by
        (apply Hnumbers; [rewrite Hw; apply elem_of_app; right; by left | done]).
      done.
    + apply H in Hin. by rewrite bool_decide_eq_false in Hin.
Qed.

(** X8: The Explore button looks the wine up by its name: it opens the first
    wine of [this.wines] with the name on the row, which need not be the wine
    of the row, and reports an error exactly when no wine has that name. *)
Theorem exploreWine_first_of_name (wineName : string) (app : App) :
  (exploreWine wineName app = ShowError "Wine details not available" <->
     forall w, w ∈ wines app -> wine_name w <> Some wineName)
  /\ (forall link, exploreWine wineName app = Shown link ->
        exists before wine after,
          wines app = before ++ wine :: after
          /\ wine_name wine = Some wineName
          /\ link_id link = wine_number wine
          /\ forall w, w ∈ before -> wine_name w <> Some wineName).
Proof.
  unfold exploreWine.
  pose proof (find_first (fun w => bool_decide (wine_name w = Some wineName)) (wines app)) as H.
  destruct (List.find _ (wines app)) as [wine|]; split.
  - split; [done|]. intros Hnone.
    destruct H as (before & after & Hw & Hn%bool_decide_eq_true & _).
    exfalso. apply (Hnone wine); [|done]. rewrite Hw. apply elem_of_app. right. by left.
  - intros link [= <-]. destruct H as (before & after & Hw & Hn%bool_decide_eq_true & Hb).
    exists before, wine, after. split_and!; [done..|].
    intros w Hin. specialize (Hb w Hin). by apply bool_decide_eq_false in Hb.
  - split; [|done]. intros _ w Hin. specialize (H w Hin).
    by apply bool_decide_eq_false in H.
  - done.
Qed.

Lemma exploreWine_opens_the_wine_witness :
  exploreWine "Amarone Classico" numberedCellar
  = Shown {| link_id := Some "12"; link_type := None |}
  /\ loadWineDetails "12" numberedCellar = Shown amarone.
Proof.
  destruct (exploreWine_opens_the_wine numberedCellar amarone "Amarone Classico" "12")
    as (Hexplore & _ & Hload).
  - apply list_elem_of_In. vm_compute. by left.
  - reflexivity.
  - reflexivity.
  - intros w Hw Hname. vm_compute in Hw.
    apply elem_of_cons in Hw as [->|Hw]; [done|].
    apply list_elem_of_singleton in Hw as ->. by vm_compute in Hname.
  - intros w Hw Hnumber. vm_compute in Hw.
    apply elem_of_cons in Hw as [->|Hw]; [done|].
    apply list_elem_of_singleton in Hw as ->. by vm_compute in Hnumber.
  - split; [exact Hexplore | exact Hload].
Defined.

(** ** The wine table *)

Lemma orElse_present (v : option string) (fallback s : string) :
  v = Some s -> s <> "" -> orElse v fallback = s.
Proof. intros -> Hs%truthyStr_true. unfold orElse. by rewrite Hs. Qed.

Lemma orElse_absent (v : option string) (fallback : string) :
  truthy v = false -> orElse v fallback = fallback.
Proof. unfold orElse, truthy. destruct v as [s|]; [by intros ->| done]. Qed.

(** X9: The row of a wine kept by the validity filter shows the name, the
    producer and the region of the wine, never a fallback text for them; its
    price cell holds one of the three price fields of the wine, and it is
    the general price whenever that field is not empty, also when it is
    "0". *)
Theorem createWineTableRow_valid (app : App) (wine : Wine) :
  validWine wine = true ->
  (exists name, row_name (createWineTableRow app wine) = Some name /\ name <> "")
  /\ wine_producer wine = Some (row_producer (createWineTableRow app wine))
  /\ row_producer (createWineTableRow app wine) <> ""
  /\ (exists r, row_region (createWineTableRow app wine) = Some r /\ r ∈ validRegions)
  /\ row_price (createWineTableRow app wine) <> ""
  /\ (wine_price wine = Some (row_price (createWineTableRow app wine))
      \/ wine_price_bottle wine = Some (row_price (createWineTableRow app wine))
      \/ wine_price_glass wine = Some (row_price (createWineTableRow app wine)))
  /\ (forall p, wine_price wine = Some p -> p <> "" ->
        row_price (createWineTableRow app wine) = p).
Proof.
  intros Hvalid. pose proof Hvalid as Hv.
  unfold validWine in Hv. rewrite !andb_true_iff in Hv.
  destruct Hv as [[[[Hregion Hname] Hproducer] Hprice] _].
  apply hasValidRegion_spec in Hregion as (r & Hr & Hin).
  apply presentAndNot_spec in Hname as (name & Hn & Hne & _).
  apply presentAndNot_spec in Hproducer as (producer & Hp & Hpe & _).
  cbn [createWineTableRow row_name row_producer row_region row_price].
  rewrite (orElse_present _ _ producer Hp Hpe).
  split_and!; [by exists name | done | done | by exists r | | |].
  - unfold hasValidPrice, presentAndNot, orElse in *.
    destruct (wine_price wine) as [p|]; [destruct (truthyStr p) eqn:Ht|];
      [by apply truthyStr_true| |];
      (destruct (wine_price_bottle wine) as [b|]; [destruct (truthyStr b) eqn:Hb|];
       [by apply truthyStr_true| |]);
      (destruct (wine_price_glass wine) as [g|]; [destruct (truthyStr g) eqn:Hg|];
       [by apply truthyStr_true|..]); by simpl in Hprice.
  - unfold hasValidPrice, presentAndNot, orElse in *.
    destruct (wine_price wine) as [p|]; [destruct (truthyStr p) eqn:Ht|];
      [by left| |];
      (destruct (wine_price_bottle wine) as [b|]; [destruct (truthyStr b) eqn:Hb|];
       [by right; left| |]);
      (destruct (wine_price_glass wine) as [g|]; [destruct (truthyStr g) eqn:Hg|];
       [by right; right|..]); by simpl in Hprice.
  - intros p Hp' Hpne. by apply orElse_present.
Qed.

Lemma createWineTableRow_valid_witness :
  row_price (createWineTableRow numberedCellar amarone) = "0"
  /\ row_producer (createWineTableRow numberedCellar amarone) = "Allegrini".
Proof.
  destruct (createWineTableRow_valid numberedCellar amarone) as (_ & Hp & _ & _ & _ & _ & Hprice).
  - by vm_compute.
  - split; [by apply Hprice | by vm_compute].
Defined.

(** ** The way back from the details page *)

Lemma validRegions_raw :
  Forall (fun x => truthyStr x = true /\ includes x "%" = false) validRegions.
Proof. by_evaluation. Qed.

Section BackButton.

Variable decodeURIComponent : string -> option string.
Hypothesis decode_plain :
  forall s, includes s "%" = false -> decodeURIComponent s = Some s.

(** X10: The back button on the details page of a loaded wine leads to a wines
    page, and that page lists the wine, however its region is spelled,
    unless the [type] parameter carried along names a family the wine is not
    of. *)
Theorem updateBackButton_lists_the_wine
    (data_wines : option (list Wine)) (type : option string) (wine : Wine) :
  wine ∈ wines (loadWineData data_wines newApp) ->
  exists params listing,
    updateBackButton type wine = BackToWines params
    /\ init decodeURIComponent WinesPage data_wines params = Some listing
    /\ (wine ∈ filteredWines listing <-> unsetOr type (wineMatchesFamily wine) = true).
Proof.
  intros Hin.
  assert (validWine wine = true) as Hvalid
    by (by apply (proj1 (Forall_forall _ _) (loadWineData_valid data_wines newApp))).
  destruct (validWine_name_region wine Hvalid) as (_ & x & _ & Hx & Hvr).
  destruct (proj1 (Forall_forall _ _) validRegions_raw x Hvr) as [Hne Hplain].
  unfold updateBackButton, init, handleURLParameters. rewrite Hx. cbn [truthy].
  rewrite Hne. do 2 eexists. split; [reflexivity|].
  cbn [param_region param_type]. rewrite Hne, (decode_plain x Hplain).
  cbn [fmap option_fmap option_map mbind option_bind].
  split; [reflexivity|].
  unfold renderCurrentPage, renderWinesPage.
  cbn [currentFilters Filters.region truthy]. rewrite Hne.
  cbn [negb filteredWines wines currentFilters].
  rewrite !list_elem_of_In, filter_In, <- list_elem_of_In.
  unfold winesPageCallback. cbn [Filters.type Filters.region].
  rewrite Hx, String.eqb_refl. cbn [andb].
  assert (unsetOr
            (if truthy (if truthy type then type else None)
             then if truthy type then type else None
             else Filters.type (currentFilters (loadWineData data_wines newApp)))
            (wineMatchesFamily wine)
          = unsetOr type (wineMatchesFamily wine)) as ->.
  { cbn [currentFilters loadWineData newApp Filters.type].
    unfold truthy, unsetOr. destruct type as [t|]; [|done].
    destruct (truthyStr t) eqn:Ht; by rewrite ?Ht. }
  tauto.
Qed.

End BackButton.

Lemma updateBackButton_lists_the_wine_witness :
  exists listing,
    init plainDecoder WinesPage (Some [ribolla; friulano])
         {| param_type := None; param_region := Some "FRIULI" |} = Some listing
    /\ ribolla ∈ filteredWines listing.
Proof.
  assert (forall s, includes s "%" = false -> plainDecoder s = Some s) as Hplain
    by (intros s Hs; unfold plainDecoder; by rewrite Hs).
  destruct (updateBackButton_lists_the_wine plainDecoder Hplain
              (Some [ribolla; friulano]) None ribolla)
    as (params & listing & Hback & Hinit & Hlisted).
  - apply list_elem_of_In. vm_compute. by left.
  - injection Hback as <-. exists listing. split; [exact Hinit|]. by apply Hlisted.
Defined.

(** ** The cards of the regions page *)

(** The wines [renderRegionsPage] draws from are the wines the family
    criterion lets through. *)
Lemma winesToUse_filter (app : App) :
  winesToUse app =
  List.filter (fun w => unsetOr (Filters.type (currentFilters app)) (wineMatchesFamily w))
              (wines app).
Proof.
  assert (forall l : list Wine, List.filter (fun _ => true) l = l) as Hall
    by (induction l as [|w l IH]; simpl; congruence).
  unfold winesToUse, unsetOr.
  destruct (Filters.type (currentFilters app)) as [t|]; [|by rewrite Hall].
  destruct (truthyStr t); [done | by rewrite Hall].
Qed.

Lemma filter_length_pos {A : Type} (f : A -> bool) (l : list A) (x : A) :
  x ∈ l -> f x = true -> 1 <= length (List.filter f l).
Proof.
  intros Hin Hf.
  assert (In x (List.filter f l)) as Hx by (apply filter_In; by rewrite <- list_elem_of_In).
  destruct (List.filter f l); [done | simpl; lia].
Qed.

Lemma toLowerCase_empty (s : string) : toLowerCase s = "" <-> s = "".
Proof. by destruct s. Qed.

(** X11: Every card shown on the regions page counts at least one wine; its
    title is a name the normaliser leaves alone, and contains the text typed
    in the search box, letter case ignored. *)
Theorem filterRegions_cards (app : App) (text : string) (card : RegionCard) :
  card ∈ filterRegions (setSearch text (renderRegionsPage app)) ->
  1 <= card_count card
  /\ normalizeRegionName (Some (card_title card)) = card_title card
  /\ (text = "" \/ Spec.substringNoCase text (card_title card)).
Proof.
  intros Hcard.
  unfold filterRegions in Hcard. cbn [allRegions setSearch renderRegionsPage] in Hcard.
  apply list_elem_of_In, in_map_iff in Hcard as (r & <- & Hr).
  apply filter_In in Hr as [Hr Hsearch].
  cbn [currentFilters Filters.search] in Hsearch.
  apply list_elem_of_In, elem_of_sort, elem_of_fold_setAdd in Hr
    as [Hr|(w & Hw & ->)]; [by apply elem_of_nil in Hr|].
  apply list_elem_of_In, filter_In in Hw as [Hw _].
  rewrite winesToUse_filter in Hw. apply filter_In in Hw as [Hw Hfamily].
  set (r := normalizeRegionName (region w)) in *.
  assert (normalizeRegionName (Some r) = r) as Hfix by apply normalizeRegionName_twice.
  split_and!.
  - rewrite regionCard_count. apply (filter_length_pos _ _ w).
    + by apply list_elem_of_In.
    + unfold winesPageCallback.
      cbn [Filters.type Filters.region currentFilters setSearch renderRegionsPage].
      fold r. by rewrite Hfix, String.eqb_refl, Hfamily.
  - unfold regionCard. cbn [card_title]. by rewrite Hfix.
  - unfold regionCard. cbn [card_title]. rewrite Hfix.
    apply orb_true_iff in Hsearch as [Hempty|Hinc].
    + left. apply negb_true_iff, truthyStr_false in Hempty. by apply toLowerCase_empty.
    + right. by apply includes_spec in Hinc.
Qed.

Lemma filterRegions_cards_witness :
  biancoCard ∈ filterRegions (setSearch "friuli" biancoRegionsPage)
  /\ 1 <= card_count biancoCard.
Proof.
  assert (biancoCard ∈ filterRegions (setSearch "friuli" biancoRegionsPage)) as Hcard
    by (apply list_elem_of_In; vm_compute; by left).
  split; [exact Hcard|].
  exact (proj1 (filterRegions_cards _ "friuli" biancoCard Hcard)).
Defined.

(** X12: A [type] criterion that is none of the six family names matches no
    wine: the regions page then has no region and no card, and the wines
    page lists nothing. *)
Theorem unknown_family_shows_nothing (app : App) (t : string) :
  Filters.type (currentFilters app) = Some t ->
  t <> "" ->
  (forall family, t <> familyName family) ->
  allRegions (renderRegionsPage app) = Some []
  /\ filterRegions (renderRegionsPage app) = []
  /\ (truthy (Filters.region (currentFilters app)) = true ->
      filteredWines (renderWinesPage app) = []).
Proof.
  intros Ht Hne%truthyStr_true Hunknown.
  assert (forall w, wineMatchesFamily w t = false) as Hno.
  { intros w. unfold wineMatchesFamily. apply String.eqb_neq.
    intros Heq. by apply (Hunknown (getWineFamily (wine_type w))). }
  assert (forall l : list Wine, List.filter (fun w => wineMatchesFamily w t) l = []) as Hfilter
    by (induction l as [|w l IH]; simpl; by rewrite ?Hno).
  assert (allRegions (renderRegionsPage app) = Some []) as Hall.
  { unfold renderRegionsPage, winesToUse. cbn [allRegions].
    by rewrite Ht, Hne, Hfilter. }
  split_and!; [done | |].
  - unfold filterRegions. by rewrite Hall.
  - intros Hr. unfold renderWinesPage. rewrite Hr. cbn [negb filteredWines].
    induction (wines app) as [|w l IH]; simpl; [done|].
    unfold winesPageCallback at 1, unsetOr. by rewrite Ht, Hne, Hno, andb_false_r.
Qed.

Lemma unknown_family_shows_nothing_witness :
  filterRegions
    (renderRegionsPage
       {| wines := wines friuliCellar;
          filteredWines := filteredWines friuliCellar;
          currentFilters := {| Filters.type := Some "bianco";
                               Filters.region := None;
                               Filters.search := "" |};
          allRegions := None |}) = [].
Proof.
  apply (unknown_family_shows_nothing _ "bianco"); [reflexivity | done |].
  by intros [].
Defined.

(** *** The counts of the cards add up *)

(** A text is blank for [hasRegion] when it is empty or all white space. *)
Lemma hasRegion_normalized (w : Wine) :
  hasRegion w =
  truthyStr (normalizeRegionName (region w))
  && negb (String.eqb (trim (normalizeRegionName (region w))) "").
Proof.
  unfold hasRegion. destruct (region w) as [x|]; [|done].
  rewrite normalizeRegionName_lookup.
  destruct (regionMap !! x) as [canonical|] eqn:Hl; [|done].
  apply regionMap_lookup in Hl.
  assert (Forall (fun entry =>
            truthyStr entry.1 && negb (String.eqb (trim entry.1) "")
            = truthyStr entry.2 && negb (String.eqb (trim entry.2) "")) regionMapEntries)
    as Hentries by by_evaluation.
  by apply (proj1 (Forall_forall _ _) Hentries (x, canonical)).
Qed.

Lemma sum_list_with_plus {A : Type} (f g : A -> nat) (l : list A) :
  sum_list_with (fun x => f x + g x) l = sum_list_with f l + sum_list_with g l.
Proof. induction l as [|x l IH]; simpl; lia. Qed.

Lemma sum_list_with_ext {A : Type} (f g : A -> nat) (l : list A) :
  (forall x, x ∈ l -> f x = g x) -> sum_list_with f l = sum_list_with g l.
Proof.
  induction l as [|x l IH]; intros H; simpl; [done|].
  rewrite (H x), IH; [done | | by left]. intros y Hy. apply H. by right.
Qed.

(** Among the names of a list without repetition, a text equals one name at
    most. *)
Lemma sum_indicator (names : list string) (x : string) (b : bool) :
  NoDup names ->
  sum_list_with (fun r => if String.eqb x r && b then 1 else 0) names
  = if b && bool_decide (x ∈ names) then 1 else 0.
Proof.
  induction 1 as [|r names Hr _ IH]; simpl.
  - by destruct b.
  - rewrite IH. destruct b; [|by rewrite andb_false_r].
    rewrite andb_true_r, !andb_true_l.
    destruct (String.eqb_spec x r) as [->|Hne].
    + rewrite (bool_decide_eq_true_2 (r ∈ r :: names)) by (by left).
      by rewrite (bool_decide_eq_false_2 (r ∈ names)).
    + destruct (decide (x ∈ names)) as [Hin|Hnin].
      * rewrite (bool_decide_eq_true_2 _ Hin).
        by rewrite (bool_decide_eq_true_2 (x ∈ r :: names)) by (by right).
      * rewrite (bool_decide_eq_false_2 _ Hnin).
        rewrite (bool_decide_eq_false_2 (x ∈ r :: names)); [done|].
        by intros [?|?]%elem_of_cons.
Qed.

(** Counting the wines name by name is counting the wines whose name is in
    the list. *)
Lemma sum_counts (names : list string) (g : Wine -> string) (P : Wine -> bool)
    (ws : list Wine) :
  NoDup names ->
  sum_list_with (fun r => length (List.filter (fun w => String.eqb (g w) r && P w) ws)) names
  = length (List.filter (fun w => P w && bool_decide (g w ∈ names)) ws).
Proof.
  intros Hnames. induction ws as [|w ws IH]; simpl.
  - induction names as [|r names IHn]; simpl; [done|].
    apply IHn. by apply NoDup_cons in Hnames as [_ ?].
  - rewrite (sum_list_with_ext _
      (fun r => (if String.eqb (g w) r && P w then 1 else 0)
                + length (List.filter (fun w => String.eqb (g w) r && P w) ws))).
    2: { intros r _. by destruct (String.eqb (g w) r && P w). }
    rewrite sum_list_with_plus, IH, (sum_indicator names (g w) (P w) Hnames).
    by destruct (P w && bool_decide (g w ∈ names)).
Qed.

(** X13: On the regions page as it opens, with nothing typed in its search box,
    the counts of the cards add up to the number of wines of the family
    shown that have a region; every wine kept by the validity filter has
    one, so no such wine is left out and none is counted twice. *)
Theorem filterRegions_counts_add_up (app : App) :
  Filters.search (currentFilters app) = "" ->
  sum_list_with card_count (filterRegions (renderRegionsPage app))
  = length (List.filter hasRegion (winesToUse app))
  /\ (Forall (fun w => validWine w = true) (wines app) ->
      sum_list_with card_count (filterRegions (renderRegionsPage app))
      = length (winesToUse app)).
Proof.
  intros Hsearch.
  destruct (renderRegionsPage_allRegions app) as (regions & Hall & _ & Hnodup & Hmem).
  assert (sum_list_with card_count (filterRegions (renderRegionsPage app))
          = length (List.filter hasRegion (winesToUse app))) as Hsum.
  { unfold filterRegions. rewrite Hall.
    cbn [currentFilters renderRegionsPage]. rewrite Hsearch. cbn [truthyStr negb orb String.eqb].
    assert (forall l : list string, List.filter (fun _ => true) l = l) as ->
      by (induction l as [|x l IH]; simpl; congruence).
    assert (forall l : list string,
              sum_list_with card_count (map (regionCard (renderRegionsPage app)) l)
              = sum_list_with (fun r => card_count (regionCard (renderRegionsPage app) r)) l)
      as -> by (induction l as [|x l IH]; cbn [map sum_list_with]; congruence).
    rewrite (sum_list_with_ext _
      (fun r => length (List.filter
         (fun w => String.eqb (normalizeRegionName (region w)) r
                   && unsetOr (Filters.type (currentFilters app)) (wineMatchesFamily w))
         (wines app)))).
    2: { intros r Hr. rewrite regionCard_count. unfold winesPageCallback.
         cbn [Filters.type Filters.region currentFilters wines renderRegionsPage].
         apply Hmem in Hr as (w & _ & _ & ->).
         by rewrite normalizeRegionName_twice. }
    rewrite (sum_counts regions _ _ _ Hnodup), winesToUse_filter.
    assert (forall (f g : Wine -> bool) (l : list Wine),
              List.filter f (List.filter g l) = List.filter (fun w => g w && f w) l) as ->.
    { intros f g. induction l as [|w l IH]; simpl; [done|].
      destruct (g w); simpl; [|done]. destruct (f w); by rewrite IH. }
    f_equal. apply filter_ext_in. intros w Hw.
    destruct (unsetOr (Filters.type (currentFilters app)) (wineMatchesFamily w)) eqn:Hfamily;
      [|by rewrite !andb_false_l].
    rewrite !andb_true_l.
    destruct (hasRegion w) eqn:Hhas.
    - apply bool_decide_eq_true, Hmem. exists w. split_and!; [|done..].
      rewrite winesToUse_filter. apply list_elem_of_In, filter_In. by split.
    - apply bool_decide_eq_false. intros (w' & _ & Hhas' & Heq)%Hmem.
      rewrite hasRegion_normalized in Hhas, Hhas'. congruence. }
  split; [done|]. intros Hvalid. rewrite Hsum. f_equal.
  assert (forall l : list Wine,
            Forall (fun w => validWine w = true) l -> List.filter hasRegion l = l) as Hkeep.
  { induction 1 as [|w l Hw _ IH]; simpl; [done|].
    by rewrite (validWine_hasRegion w Hw), IH. }
  apply Hkeep. rewrite winesToUse_filter.
  apply Forall_forall. intros w Hw%list_elem_of_In%filter_In.
  apply (proj1 (Forall_forall _ _) Hvalid). apply list_elem_of_In. tauto.
Qed.

Lemma filterRegions_counts_add_up_witness :
  sum_list_with card_count (filterRegions biancoRegionsPage) = 2.
Proof.
  unfold biancoRegionsPage.
  rewrite (proj1 (filterRegions_counts_add_up
    {| wines := wines friuliCellar;
       filteredWines := filteredWines friuliCellar;
       currentFilters := {| Filters.type := Some "BIANCO";
                            Filters.region := None;
                            Filters.search := "" |};
       allRegions := None |} eq_refl)).
  by vm_compute.
Defined.

(** ** The home page *)

Lemma familyName_in (family : WineFamily) : familyName family ∈ familyNames.
Proof. destruct family; by_evaluation. Qed.

(** Each wine is of one family: the counts of the six families add up to
    the number of wines. *)
Lemma family_counts_add_up (ws : list Wine) :
  sum_list_with (fun type => length (List.filter (fun wine => wineMatchesFamily wine type) ws))
                familyNames
  = length ws.
Proof.
  rewrite (sum_list_with_ext _
    (fun type => length (List.filter
       (fun wine => String.eqb (familyName (getWineFamily (wine_type wine))) type && true) ws))).
  2: { intros type _. f_equal. apply filter_ext. intros w.
       unfold wineMatchesFamily. by rewrite andb_true_r. }
  rewrite sum_counts by by_evaluation.
  f_equal. induction ws as [|w ws IH]; [done|]. cbn [List.filter].
  rewrite (bool_decide_eq_true_2 _ (familyName_in (getWineFamily (wine_type w)))).
  change (true && true) with true. cbn iota. by rewrite IH.
Qed.

(** X14: On a home page of six cards, the counts [renderHomePage] writes add up
    to the number of wines: every wine is counted on one card. *)
Theorem renderHomePage_counts_add_up (app : App) (cards : list HomeCard) :
  length cards = 6 ->
  sum_list_with shownCount (renderHomePage app cards) = length (wines app).
Proof.
  intros Hlen.
  destruct cards as [|c0 [|c1 [|c2 [|c3 [|c4 [|c5 [|c6 cards]]]]]]]; try done.
  rewrite <- (family_counts_add_up (wines app)). reflexivity.
Qed.

Lemma renderHomePage_counts_add_up_witness :
  sum_list_with shownCount
    (renderHomePage numberedCellar
       (replicate 6 {| home_type := None; home_display := true; home_count := PageText |}))
  = 2.
Proof.
  rewrite (renderHomePage_counts_add_up numberedCellar); [by vm_compute | reflexivity].
Defined.

(** X15: [updateWineCounts], which resets the counts after a filter is cleared,
    reads its families from a list that lacks ARANCIONE: on six cards it
    restores the counts of [renderHomePage] exactly when there are as many
    ARANCIONE as BOLLICINE wines and as many BOLLICINE as NON ALCOLICO
    wines. *)
Theorem updateWineCounts_restores_iff (app : App) (cards : list HomeCard) :
  length cards = 6 ->
  updateWineCounts app (renderHomePage app cards) = renderHomePage app cards <->
  length (List.filter (fun wine => wineMatchesFamily wine "ARANCIONE") (wines app))
  = length (List.filter (fun wine => wineMatchesFamily wine "BOLLICINE") (wines app))
  /\ length (List.filter (fun wine => wineMatchesFamily wine "BOLLICINE") (wines app))
     = length (List.filter (fun wine => wineMatchesFamily wine "NON ALCOLICO") (wines app)).
Proof.
  intros Hlen.
  destruct cards as [|c0 [|c1 [|c2 [|c3 [|c4 [|c5 [|c6 cards]]]]]]]; try done.
  unfold updateWineCounts, renderHomePage, countCards.
  cbn [imap lookup list_lookup truthyStr String.eqb negb compose].
  unfold setCount. cbn [home_type home_display home_count].
  split.
  - intros [= H3 H4]. by rewrite H3, H4.
  - intros [-> ->]. reflexivity.
Qed.

Lemma updateWineCounts_restores_iff_witness :
  updateWineCounts numberedCellar
    (renderHomePage numberedCellar
       (replicate 6 {| home_type := None; home_display := true; home_count := PageText |}))
  <> renderHomePage numberedCellar
       (replicate 6 {| home_type := None; home_display := true; home_count := PageText |}).
Proof.
  intros Heq.
  apply (updateWineCounts_restores_iff numberedCellar) in Heq as [Heq _]; [|reflexivity].
  by vm_compute in Heq.
Defined.

(** A loop over the positions of a list that rewrites the element at each
    position from what it finds there is a map over the list. *)
Lemma foldl_positions {A : Type} (f : A -> A) (before rest : list A) :
  foldl (fun l index =>
           match l !! index with
           | Some x => <[index := f x]> l
           | None => l
           end) (before ++ rest) (seq (length before) (length rest))
  = before ++ (f <$> rest).
Proof.
  revert before. induction rest as [|x rest IH]; intros before; [done|].
  cbn [length seq foldl fmap list_fmap].
  rewrite list_lookup_middle by reflexivity.
  rewrite insert_app_r_alt, Nat.sub_diag by reflexivity. cbn [insert list_insert].
  rewrite (cons_middle (f x)), app_assoc.
  replace (S (length before)) with (length (before ++ [f x]))
    by (rewrite length_app; simpl; lia).
  rewrite IH. by rewrite <- app_assoc.
Qed.

Lemma foldl_same {A B : Type} (f g : A -> B -> A) (a : A) (l : list B) :
  (forall a b, f a b = g a b) -> foldl f a l = foldl g a l.
Proof.
  intros Hfg. revert a. induction l as [|b l IH]; intros a; [done|].
  cbn [foldl]. by rewrite Hfg, IH.
Qed.

(** What [applyRegionFilter] does to one card, for a region that is not
    empty. *)
Lemma applyRegionFilter_cards (r : string) (app : App) (cards : list HomeCard) :
  r <> "" ->
  (applyRegionFilter r app cards).2 =
  (fun card =>
     let count :=
       length (List.filter (fun wine =>
         wineMatchesLinkType wine (home_type card) && bool_decide (region wine = Some r))
         (wines app)) in
     if Nat.ltb 0 count then setCount count (setDisplay true card)
     else setDisplay false card) <$> cards.
Proof.
  intros Hr%truthyStr_true. unfold applyRegionFilter. cbn [snd].
  rewrite <- (app_nil_l (_ <$> cards)), <- (foldl_positions _ [] cards).
  cbn [List.app length]. apply foldl_same. intros l index. unfold applyRegionFilterCard.
  rewrite Hr. cbn [negb]. destruct (l !! index) as [card|]; [|done].
  by destruct (Nat.ltb 0 _).
Qed.

(** X16: After [applyRegionFilter] with a region that is not empty, a card of the
    home page is displayed exactly when some wine of the family of its link
    has the region, written exactly so; a displayed card counts those wines,
    a hidden card keeps the count it had; the region is stored in the
    criteria. *)
Theorem applyRegionFilter_displays_iff (r : string) (app : App) (cards : list HomeCard) :
  r <> "" ->
  Filters.region (currentFilters (applyRegionFilter r app cards).1) = Some r
  /\ length (applyRegionFilter r app cards).2 = length cards
  /\ forall index card,
       cards !! index = Some card ->
       exists card',
         (applyRegionFilter r app cards).2 !! index = Some card'
         /\ home_type card' = home_type card
         /\ (home_display card' = true <->
             exists wine, wine ∈ wines app
                          /\ wineMatchesLinkType wine (home_type card) = true
                          /\ region wine = Some r)
         /\ (home_display card' = true ->
             home_count card' =
             WinesText (length (List.filter (fun wine =>
               wineMatchesLinkType wine (home_type card)
               && bool_decide (region wine = Some r)) (wines app))))
         /\ (home_display card' = false -> home_count card' = home_count card).
Proof.
  intros Hr. split; [done|].
  rewrite (applyRegionFilter_cards r app cards Hr). split; [apply length_fmap|].
  intros index card Hcard. rewrite list_lookup_fmap, Hcard. cbn [fmap option_fmap option_map].
  eexists. split; [reflexivity|]. cbn zeta.
  set (f := fun wine => wineMatchesLinkType wine (home_type card)
                        && bool_decide (region wine = Some r)).
  assert ((exists wine, wine ∈ wines app
                        /\ wineMatchesLinkType wine (home_type card) = true
                        /\ region wine = Some r)
          <-> Nat.ltb 0 (length (List.filter f (wines app))) = true) as Hiff.
  { rewrite Nat.ltb_lt. split.
    - intros (wine & Hin & Hfam & Hreg). apply (filter_length_pos f _ wine Hin).
      unfold f. by rewrite Hfam, (bool_decide_eq_true_2 _ Hreg).
    - intros Hpos. destruct (List.filter f (wines app)) as [|wine l] eqn:Hl; [simpl in Hpos; lia|].
      assert (In wine (List.filter f (wines app))) as Hin by (rewrite Hl; by left).
      apply filter_In in Hin as [Hin Hf]. unfold f in Hf.
      apply andb_true_iff in Hf as [Hfam Hreg%bool_decide_eq_true].
      exists wine. by rewrite list_elem_of_In. }
  rewrite Hiff. destruct (Nat.ltb 0 (length (List.filter f (wines app)))); simpl; by split_and!.
Qed.

Lemma applyRegionFilter_displays_iff_witness :
  (applyRegionFilter "VENETO" numberedCellar
     [ {| home_type := Some "ROSSO"; home_display := true; home_count := PageText |};
       {| home_type := Some "BIANCO"; home_display := true; home_count := PageText |} ]).2
  = [ {| home_type := Some "ROSSO"; home_display := true; home_count := WinesText 1 |};
      {| home_type := Some "BIANCO"; home_display := false; home_count := PageText |} ]
  /\ length (applyRegionFilter "VENETO" numberedCellar
     [ {| home_type := Some "ROSSO"; home_display := true; home_count := PageText |};
       {| home_type := Some "BIANCO"; home_display := true; home_count := PageText |} ]).2 = 2.
Proof.
  split; [by vm_compute|].
  by rewrite (proj1 (proj2 (applyRegionFilter_displays_iff "VENETO" numberedCellar _ ltac:(done)))).
Defined.

Lemma countCards_lookup (wineTypes : list string) (app : App) (cards : list HomeCard)
    (index : nat) :
  countCards wineTypes app cards !! index =
  (fun card =>
     match wineTypes !! index with
     | Some type =>
       if truthyStr type then
         setCount (length (List.filter (fun wine => wineMatchesFamily wine type) (wines app)))
                  card
       else card
     | None => card
     end) <$> cards !! index.
Proof. unfold countCards. by rewrite list_lookup_imap. Qed.

(** Counting the cards twice is counting them once. *)
Lemma countCards_idempotent (wineTypes : list string) (app : App) (cards : list HomeCard) :
  countCards wineTypes app (countCards wineTypes app cards) = countCards wineTypes app cards.
Proof.
  apply list_eq. intros index. rewrite !countCards_lookup.
  destruct (cards !! index) as [card|]; [|done]. cbn [fmap option_fmap option_map].
  destruct (wineTypes !! index) as [type|]; [|done].
  by destruct (truthyStr type).
Qed.

(** Displaying a card and counting commute. *)
Lemma countCards_display (wineTypes : list string) (app : App) (cards : list HomeCard)
    (index : nat) (card : HomeCard) :
  cards !! index = Some card ->
  countCards wineTypes app (<[index := setDisplay true card]> cards)
  = <[index := setDisplay true (default card (countCards wineTypes app cards !! index))]>
      (countCards wineTypes app cards).
Proof.
  intros Hcard. apply list_eq. intros j. rewrite countCards_lookup.
  destruct (decide (index = j)) as [<-|Hne].
  - rewrite !list_lookup_insert_eq.
    2: { unfold countCards. rewrite length_imap. by eapply lookup_lt_Some. }
    2: { by eapply lookup_lt_Some. }
    rewrite countCards_lookup, Hcard. cbn [fmap option_fmap option_map default from_option id].
    destruct (wineTypes !! index) as [type|]; [|done].
    by destruct (truthyStr type).
  - rewrite !list_lookup_insert_ne by done. by rewrite countCards_lookup.
Qed.

(** The turn that [applyRegionFilter], [applyVarietalFilter] and
    [applyIndexSearch] share when nothing is chosen, looped from any position
    on: every card is displayed, with the counts of [updateWineCounts]. *)
Lemma show_all_loop (app : App) (rest before cards : list HomeCard) :
  rest <> [] ->
  cards = before ++ rest \/ cards = updateWineCounts app (before ++ rest) ->
  foldl (fun cards index =>
           match cards !! index with
           | Some card => updateWineCounts app (<[index := setDisplay true card]> cards)
           | None => cards
           end) cards (seq (length before) (length rest))
  = updateWineCounts app (before ++ (setDisplay true <$> rest)).
Proof.
  revert before cards. induction rest as [|c rest IH]; [done|].
  intros before cards _ Hcards. cbn [length seq foldl].
  assert (match cards !! length before with
          | Some card => updateWineCounts app (<[length before := setDisplay true card]> cards)
          | None => cards
          end = updateWineCounts app (before ++ setDisplay true c :: rest)) as ->.
  { assert (before ++ setDisplay true c :: rest
            = <[length before := setDisplay true c]> (before ++ c :: rest)) as ->
      by (by rewrite insert_app_r_alt, Nat.sub_diag).
    assert ((before ++ c :: rest) !! length before = Some c) as Hc
      by (by apply list_lookup_middle).
    destruct Hcards as [-> | ->].
    - by rewrite Hc.
    - unfold updateWineCounts in *.
      rewrite (countCards_display _ _ _ _ _ Hc).
      destruct (countCards _ app (before ++ c :: rest) !! length before) as [card'|] eqn:Hc'.
      + rewrite (countCards_display _ _ _ _ _ Hc'), countCards_idempotent, Hc'. done.
      + rewrite countCards_lookup, Hc in Hc'. done. }
  destruct rest as [|c' rest]; [done|].
  replace (S (length before)) with (length (before ++ [setDisplay true c]))
    by (rewrite length_app; simpl; lia).
  rewrite (IH (before ++ [setDisplay true c])); [|done|].
  - by rewrite <- app_assoc.
  - right. by rewrite <- app_assoc.
Qed.

Lemma show_all (app : App) (cards : list HomeCard) :
  foldl (fun cards index =>
           match cards !! index with
           | Some card => updateWineCounts app (<[index := setDisplay true card]> cards)
           | None => cards
           end) cards (seq 0 (length cards))
  = updateWineCounts app (setDisplay true <$> cards).
Proof.
  destruct cards as [|c cards]; [done|].
  by apply (show_all_loop app (c :: cards) []); [|left].
Qed.

(** A loop whose turns do not throw runs to its end. *)
Lemma foldl_no_exception {A B : Type} (f : A -> B -> option A) (g : A -> B -> A)
    (a : A) (l : list B) :
  (forall a b, f a b = Some (g a b)) ->
  foldl (fun result b => a ← result; f a b) (Some a) l = Some (foldl g a l).
Proof.
  intros Hfg. revert a. induction l as [|b l IH]; intros a; [done|].
  cbn [foldl mbind option_bind]. by rewrite Hfg, IH.
Qed.

(** On an empty search box [applyIndexSearch] does not throw. *)
Lemma nothing_chosen_cards (app : App) (cards : list HomeCard) :
  Filters.search (currentFilters app) = "" ->
  exists cards', applyIndexSearch app cards = Some cards'.
Proof.
  intros Hsearch. eexists. unfold applyIndexSearch.
  apply (foldl_no_exception _ (fun cards index =>
           match cards !! index with
           | Some card => updateWineCounts app (<[index := setDisplay true card]> cards)
           | None => cards
           end)).
  intros l index. unfold applyIndexSearchCard.
  rewrite Hsearch. by destruct (l !! index).
Qed.

(** X17: With nothing chosen, that is [applyRegionFilter('')] for "All Regions",
    [applyVarietalFilter('')] and [applyIndexSearch()] on an empty search
    box, every card is displayed and the counts are those [updateWineCounts]
    writes; no exception is thrown, whatever the wines are. *)
Theorem nothing_chosen_shows_every_card (app : App) (cards : list HomeCard) :
  (applyRegionFilter "" app cards).2 = updateWineCounts app (setDisplay true <$> cards)
  /\ (applyVarietalFilter "" app cards).2 = updateWineCounts app (setDisplay true <$> cards)
  /\ (Filters.search (currentFilters app) = "" ->
      applyIndexSearch app cards = Some (updateWineCounts app (setDisplay true <$> cards))).
Proof.
  split_and!.
  - unfold applyRegionFilter. cbn [snd]. rewrite <- show_all. apply foldl_same.
    intros l index. unfold applyRegionFilterCard. by destruct (l !! index).
  - unfold applyVarietalFilter. cbn [snd]. rewrite <- show_all. apply foldl_same.
    intros l index. unfold applyVarietalFilterCard. by destruct (l !! index).
  - intros Hsearch. unfold applyIndexSearch. rewrite <- show_all.
    apply foldl_no_exception. intros l index. unfold applyIndexSearchCard.
    rewrite Hsearch. by destruct (l !! index).
Qed.

Lemma nothing_chosen_shows_every_card_witness :
  applyIndexSearch numberedCellar
    [ {| home_type := Some "ROSSO"; home_display := false; home_count := PageText |};
      {| home_type := Some "BIANCO"; home_display := false; home_count := PageText |} ]
  = Some [ {| home_type := Some "ROSSO"; home_display := true; home_count := WinesText 1 |};
           {| home_type := Some "BIANCO"; home_display := true; home_count := WinesText 0 |} ].
Proof.
  by rewrite (proj2 (proj2 (nothing_chosen_shows_every_card numberedCellar _)) eq_refl).
Defined.

(** ** Filtering the cards of the home page *)

(** The card a count leaves: displayed with the count when it is positive,
    hidden with the text it had otherwise. *)
Lemma counted_card (f : Wine -> bool) (ws : list Wine) (card : HomeCard) :
  let card' := if Nat.ltb 0 (length (List.filter f ws))
               then setCount (length (List.filter f ws)) (setDisplay true card)
               else setDisplay false card in
  home_type card' = home_type card
  /\ (home_display card' = true <-> exists wine, wine ∈ ws /\ f wine = true)
  /\ (home_display card' = true -> home_count card' = WinesText (length (List.filter f ws)))
  /\ (home_display card' = false -> home_count card' = home_count card).
Proof.
  assert ((exists wine, wine ∈ ws /\ f wine = true)
          <-> Nat.ltb 0 (length (List.filter f ws)) = true) as Hiff.
  { rewrite Nat.ltb_lt. split.
    - intros (wine & Hin & Hf). by apply (filter_length_pos f _ wine Hin).
    - intros Hpos. destruct (List.filter f ws) as [|wine l] eqn:Hl; [simpl in Hpos; lia|].
      assert (In wine (List.filter f ws)) as Hin by (rewrite Hl; by left).
      apply filter_In in Hin as [Hin Hf]. exists wine. by rewrite list_elem_of_In. }
  cbn zeta. rewrite Hiff.
  destruct (Nat.ltb 0 (length (List.filter f ws))); cbn; by split_and!.
Qed.

(** What [applyVarietalFilter] does to one card, for a varietal that is not
    empty. *)
Lemma applyVarietalFilter_cards (v : string) (app : App) (cards : list HomeCard) :
  v <> "" ->
  (applyVarietalFilter v app cards).2 =
  (fun card =>
     let count :=
       length (List.filter (fun wine =>
         wineMatchesLinkType wine (home_type card)
         && varietalsInclude wine (toLowerCase v)) (wines app)) in
     if Nat.ltb 0 count then setCount count (setDisplay true card)
     else setDisplay false card) <$> cards.
Proof.
  intros Hv%truthyStr_true. unfold applyVarietalFilter. cbn [snd].
  rewrite <- (app_nil_l (_ <$> cards)), <- (foldl_positions _ [] cards).
  cbn [List.app length]. apply foldl_same. intros l index. unfold applyVarietalFilterCard.
  rewrite Hv. cbn [negb]. destruct (l !! index) as [card|]; [|done].
  by destruct (Nat.ltb 0 _).
Qed.

(** X18: After [applyVarietalFilter] with a varietal that is not empty, a card of
    the home page is displayed exactly when some wine of the family of its
    link has varietals that contain the chosen text, letter case ignored; a
    displayed card counts those wines, a hidden card keeps the count it
    had. *)
Theorem applyVarietalFilter_displays_iff (v : string) (app : App) (cards : list HomeCard) :
  v <> "" ->
  length (applyVarietalFilter v app cards).2 = length cards
  /\ forall index card,
       cards !! index = Some card ->
       exists card',
         (applyVarietalFilter v app cards).2 !! index = Some card'
         /\ home_type card' = home_type card
         /\ (home_display card' = true <->
             exists wine written,
               wine ∈ wines app
               /\ wineMatchesLinkType wine (home_type card) = true
               /\ varietals wine = Some written
               /\ includes (toLowerCase written) (toLowerCase v) = true)
         /\ (home_display card' = true ->
             home_count card' =
             WinesText (length (List.filter (fun wine =>
               wineMatchesLinkType wine (home_type card)
               && varietalsInclude wine (toLowerCase v)) (wines app))))
         /\ (home_display card' = false -> home_count card' = home_count card).
Proof.
  intros Hv. rewrite (applyVarietalFilter_cards v app cards Hv). split; [apply length_fmap|].
  intros index card Hcard. rewrite list_lookup_fmap, Hcard. cbn [fmap option_fmap option_map].
  eexists. split; [reflexivity|]. cbn zeta.
  destruct (counted_card (fun wine => wineMatchesLinkType wine (home_type card)
                                      && varietalsInclude wine (toLowerCase v))
                         (wines app) card) as (Htype & Hdisplay & Hcount & Hkept).
  split_and!; [done| |done|done].
  rewrite Hdisplay. split.
  - intros (wine & Hin & [Hfam Hvar]%andb_true_iff).
    unfold varietalsInclude in Hvar. destruct (varietals wine) as [written|] eqn:Hw; [|done].
    apply andb_true_iff in Hvar as [_ Hvar]. by exists wine, written.
  - intros (wine & written & Hin & Hfam & Hw & Hvar). exists wine. split; [done|].
    unfold varietalsInclude. rewrite Hfam, Hw, Hvar, andb_true_r. cbn [andb].
    apply truthyStr_true. intros ->.
    destruct v as [|c v]; [done|]. by cbn in Hvar.
Qed.

Lemma applyVarietalFilter_displays_iff_witness :
  length (applyVarietalFilter "corvina" numberedCellar
     [ {| home_type := Some "ROSSO"; home_display := true; home_count := PageText |};
       {| home_type := Some "BOLLICINE"; home_display := true; home_count := PageText |} ]).2
  = 2
  /\ (applyVarietalFilter "corvina" numberedCellar
     [ {| home_type := Some "ROSSO"; home_display := true; home_count := PageText |};
       {| home_type := Some "BOLLICINE"; home_display := true; home_count := PageText |} ]).2
  = [ {| home_type := Some "ROSSO"; home_display := true; home_count := WinesText 1 |};
      {| home_type := Some "BOLLICINE"; home_display := false; home_count := PageText |} ].
Proof.
  split; [|by vm_compute].
  by rewrite (proj1 (applyVarietalFilter_displays_iff "corvina" numberedCellar _ ltac:(done))).
Defined.

(** A loop over the positions of a list whose turns can throw is a [mapM]
    over the list. *)
Lemma foldl_positions_option {A : Type} (f : A -> option A) (before rest : list A) :
  foldl (fun result index =>
           l ← result;
           match l !! index with
           | Some x => y ← f x; Some (<[index := y]> l)
           | None => Some l
           end) (Some (before ++ rest)) (seq (length before) (length rest))
  = (ys ← mapM f rest; Some (before ++ ys)).
Proof.
  revert before. induction rest as [|x rest IH]; intros before; [done|].
  cbn [length seq foldl mapM mbind option_bind].
  rewrite list_lookup_middle by reflexivity.
  destruct (f x) as [y|]; cbn [mbind option_bind].
  - rewrite insert_app_r_alt, Nat.sub_diag by reflexivity. cbn [insert list_insert].
    rewrite (cons_middle y), app_assoc.
    replace (S (length before)) with (length (before ++ [y]))
      by (rewrite length_app; simpl; lia).
    rewrite IH. destruct (mapM f rest) as [ys|]; [|done].
    cbn. by rewrite <- app_assoc.
  - clear IH. generalize (S (length before)). induction rest as [|? rest IH]; intros n; [done|].
    cbn [length seq foldl mbind option_bind]. apply IH.
Qed.

Lemma mapM_total {A B : Type} (f : A -> option B) (g : A -> B) (l : list A) :
  (forall x, x ∈ l -> f x = Some (g x)) -> mapM f l = Some (g <$> l).
Proof.
  intros Hfg. apply mapM_Some. induction l as [|x l IH]; [constructor|].
  cbn [fmap list_fmap]. constructor.
  - apply Hfg. by left.
  - apply IH. intros y Hy. apply Hfg. by right.
Qed.

(** [applyIndexSearch] on a search text that is not empty, card by card. *)
Lemma applyIndexSearch_cards (app : App) (cards : list HomeCard) :
  Filters.search (currentFilters app) <> "" ->
  applyIndexSearch app cards =
  mapM (fun card =>
          matchingWines ← filterE (indexSearchCallback (Filters.search (currentFilters app))
                                                       (home_type card)) (wines app);
          Some (if Nat.ltb 0 (length matchingWines)
                then setCount (length matchingWines) (setDisplay true card)
                else setDisplay false card)) cards.
Proof.
  intros Hs%truthyStr_true. unfold applyIndexSearch.
  set (f := fun card : HomeCard => _ ← filterE _ (wines app); Some _).
  transitivity (ys ← mapM f cards; Some ([] ++ ys)); [|by destruct (mapM f cards)].
  rewrite <- (foldl_positions_option f [] cards). cbn [List.app length].
  apply foldl_same. intros [l|] index; [|done]. cbn [mbind option_bind].
  unfold applyIndexSearchCard, f. rewrite Hs. cbn [negb].
  destruct (l !! index) as [card|]; [|done].
  destruct (filterE _ (wines app)) as [matchingWines|]; [|done].
  cbn [mbind option_bind]. by destruct (Nat.ltb 0 _).
Qed.

(** On a wine with a name and a region the callback of [applyIndexSearch]
    does not throw. *)
Lemma indexSearchCallback_named (search : string) (type : option string) (wine : Wine)
    (name r : string) :
  wine_name wine = Some name -> region wine = Some r ->
  indexSearchCallback search type wine =
  Some (wineMatchesLinkType wine type
        && (includes (toLowerCase name) search
            || includes (toLowerCase r) search
            || varietalsInclude wine search)).
Proof.
  intros Hn Hr. unfold indexSearchCallback. rewrite Hn, Hr.
  destruct (wineMatchesLinkType wine type); [|done]. cbn [negb andb mbind option_bind].
  destruct (includes (toLowerCase name) search); [done|].
  by destruct (includes (toLowerCase r) search).
Qed.

(** When the callback of [applyIndexSearch] throws: on a wine of the family
    asked for that has no name, or whose name lacks the text and that has no
    region. *)
Lemma indexSearchCallback_None (search : string) (type : option string) (wine : Wine) :
  indexSearchCallback search type wine = None <->
  wineMatchesLinkType wine type = true
  /\ (wine_name wine = None
      \/ exists name, wine_name wine = Some name
                      /\ includes (toLowerCase name) search = false
                      /\ region wine = None).
Proof.
  unfold indexSearchCallback.
  destruct (wineMatchesLinkType wine type); cbn [negb]; [|by split; [|intros [? _]]].
  destruct (wine_name wine) as [name|]; cbn [mbind option_bind];
    [|by split; [split; [|left]|]].
  destruct (includes (toLowerCase name) search) eqn:Hinc.
  - split; [done|]. intros [_ [?|(n & [= <-] & Hn & _)]]; congruence.
  - destruct (region wine) as [r|]; cbn [mbind option_bind].
    + split; [by destruct (includes (toLowerCase r) search)|].
      intros [_ [?|(n & _ & _ & ?)]]; done.
    + split; [|done]. intros _. split; [done|]. right. by exists name.
Qed.

(** X19: The search box of the home page, on wines the validity filter retained
    and a text that is not empty: [applyIndexSearch] does not throw; a card
    is displayed exactly when some wine of the family of its link has the
    text in its name, its region or its varietals, these put in lower case;
    a displayed card counts those wines, a hidden card keeps the count it
    had.  The family and the region of the criteria play no part. *)
Theorem applyIndexSearch_displays_iff (app : App) (cards : list HomeCard) :
  Forall (fun w => validWine w = true) (wines app) ->
  Filters.search (currentFilters app) <> "" ->
  exists cards',
    applyIndexSearch app cards = Some cards'
    /\ length cards' = length cards
    /\ forall index card,
         cards !! index = Some card ->
         exists card',
           cards' !! index = Some card'
           /\ home_type card' = home_type card
           /\ (home_display card' = true <->
               exists wine name r,
                 wine ∈ wines app
                 /\ wineMatchesLinkType wine (home_type card) = true
                 /\ wine_name wine = Some name
                 /\ region wine = Some r
                 /\ (includes (toLowerCase name) (Filters.search (currentFilters app)) = true
                     \/ includes (toLowerCase r) (Filters.search (currentFilters app)) = true
                     \/ varietalsInclude wine (Filters.search (currentFilters app)) = true))
           /\ (home_display card' = true ->
               exists count, 0 < count /\ home_count card' = WinesText count)
           /\ (home_display card' = false -> home_count card' = home_count card).
Proof.
  intros Hvalid Hs. set (search := Filters.search (currentFilters app)) in *.
  set (accepts := fun (type : option string) (wine : Wine) =>
         wineMatchesLinkType wine type
         && (includes (toLowerCase (default "" (wine_name wine))) search
             || includes (toLowerCase (default "" (region wine))) search
             || varietalsInclude wine search)).
  assert (forall type, filterE (indexSearchCallback search type) (wines app)
                       = Some (List.filter (accepts type) (wines app))) as Hfilter.
  { intros type. rewrite filterE_total.
    - f_equal. apply filter_ext_in. intros wine Hin.
      destruct (validWine_name_region wine) as (name & r & Hn & Hr & _).
      { by apply (proj1 (Forall_forall _ _) Hvalid), list_elem_of_In. }
      rewrite (indexSearchCallback_named _ _ _ name r Hn Hr). unfold accepts.
      by rewrite Hn, Hr.
    - eapply Forall_impl; [exact Hvalid|]. intros wine Hv.
      destruct (validWine_name_region wine Hv) as (name & r & Hn & Hr & _).
      by rewrite (indexSearchCallback_named _ _ _ name r Hn Hr). }
  eexists. split.
  { rewrite (applyIndexSearch_cards app cards Hs). apply mapM_total.
    intros card _. fold search. rewrite Hfilter. cbn [mbind option_bind]. reflexivity. }
  split; [apply length_fmap|].
  intros index card Hcard. rewrite list_lookup_fmap, Hcard. cbn [fmap option_fmap option_map].
  eexists. split; [reflexivity|].
  destruct (counted_card (accepts (home_type card)) (wines app) card)
    as (Htype & Hdisplay & Hcount & Hkept).
  cbn zeta in Htype, Hdisplay, Hcount, Hkept.
  split_and!; [done| | |done].
  - rewrite Hdisplay. split.
    + intros (wine & Hin & [Hfam Hany]%andb_true_iff).
      destruct (validWine_name_region wine) as (name & r & Hn & Hr & _).
      { by apply (proj1 (Forall_forall _ _) Hvalid). }
      exists wine, name, r. rewrite Hn, Hr in Hany. cbn [default from_option id] in Hany.
      apply orb_true_iff in Hany as [Hany%orb_true_iff|Hany]; [|by split_and!; try right; try right].
      destruct Hany; split_and!; try done; [by left | by right; left].
    + intros (wine & name & r & Hin & Hfam & Hn & Hr & Hany). exists wine. split; [done|].
      unfold accepts. rewrite Hfam, Hn, Hr. cbn [default from_option id andb].
      rewrite !orb_true_iff. tauto.
  - intros Hshown. pose proof (Hcount Hshown) as ->. eexists. split; [|reflexivity].
    apply Hdisplay in Hshown as (wine & Hin & Hacc).
    by apply (filter_length_pos _ _ wine).
Qed.

Lemma applyIndexSearch_displays_iff_witness :
  exists cards',
    applyIndexSearch (setSearch "Nino" numberedCellar)
      [ {| home_type := Some "ROSSO"; home_display := true; home_count := PageText |};
        {| home_type := Some "BOLLICINE"; home_display := true; home_count := PageText |} ]
    = Some cards'
    /\ length cards' = 2.
Proof.
  destruct (applyIndexSearch_displays_iff (setSearch "Nino" numberedCellar)
    [ {| home_type := Some "ROSSO"; home_display := true; home_count := PageText |};
      {| home_type := Some "BOLLICINE"; home_display := true; home_count := PageText |} ])
    as (cards' & Hcards & Hlen & _).
  - by_evaluation.
  - by vm_compute.
  - by exists cards'.
Defined.

(** X20: [applyIndexSearch] throws exactly when the search text is not empty and
    some wine of the family of some card has no name, or has a name without
    the text and no region: the test of the family comes first and shields
    the wines of the families that have no card. *)
Theorem applyIndexSearch_throws_iff (app : App) (cards : list HomeCard) :
  applyIndexSearch app cards = None <->
  Filters.search (currentFilters app) <> ""
  /\ exists card wine,
       card ∈ cards /\ wine ∈ wines app
       /\ wineMatchesLinkType wine (home_type card) = true
       /\ (wine_name wine = None
           \/ exists name, wine_name wine = Some name
                /\ includes (toLowerCase name) (Filters.search (currentFilters app)) = false
                /\ region wine = None).
Proof.
  destruct (decide (Filters.search (currentFilters app) = "")) as [Hs|Hs].
  { destruct (nothing_chosen_cards app cards Hs) as [cards' ->]. by split; [|intros [? _]]. }
  rewrite (applyIndexSearch_cards app cards Hs), mapM_None, Exists_exists.
  split.
  - intros (card & Hcard & Hnone). split; [done|].
    destruct (filterE _ (wines app)) as [ws|] eqn:Hf; [done|].
    apply filterE_None in Hf as (wine & Hwine & [Hfam Hthrows]%indexSearchCallback_None).
    by exists card, wine.
  - intros (_ & card & wine & Hcard & Hwine & Hfam & Hthrows).
    exists card. split; [done|].
    assert (filterE (indexSearchCallback (Filters.search (currentFilters app)) (home_type card))
                    (wines app) = None) as ->; [|done].
    apply filterE_None. exists wine. split; [done|]. by apply indexSearchCallback_None.
Qed.

(** ** The dropdowns and the cards *)

Lemma includes_refl (s : string) : includes s s = true.
Proof.
  assert (startsWith s s = true) as Hs
    by (apply startsWith_spec; exists ""%string; by rewrite append_nil_r).
  destruct s; cbn [includes]; by rewrite Hs.
Qed.

Lemma showVarietalFilter_from_wine (app : App) (v : string) :
  v ∈ showVarietalFilter app ->
  exists wine, wine ∈ wines app /\ varietals wine = Some v /\ v <> "".
Proof.
  unfold showVarietalFilter, newSet. rewrite elem_of_sort, (elem_of_fold_setAdd id).
  intros [Hv|(x & (w & Hw & Hvar)%list_elem_of_omap & ->)]; [by apply elem_of_nil in Hv|].
  apply list_elem_of_In, filter_In in Hw as [Hw Hh].
  unfold hasVarietals in Hh. rewrite Hvar in Hh.
  apply andb_true_iff in Hh as [Hne%truthyStr_true _].
  exists w. by rewrite list_elem_of_In.
Qed.

Lemma showRegionFilter_from_wine (app : App) (r : string) :
  r ∈ showRegionFilter app ->
  exists wine, wine ∈ wines app /\ region wine = Some r /\ r <> "".
Proof.
  unfold showRegionFilter, newSet. rewrite elem_of_sort, (elem_of_fold_setAdd id).
  intros [Hr|(x & (w & Hw & Hreg)%list_elem_of_omap & ->)]; [by apply elem_of_nil in Hr|].
  apply list_elem_of_In, filter_In in Hw as [Hw Hh].
  unfold hasRegion in Hh. rewrite Hreg in Hh.
  apply andb_true_iff in Hh as [Hne%truthyStr_true _].
  exists w. by rewrite list_elem_of_In.
Qed.

Lemma wineMatchesLinkType_own_family (wine : Wine) :
  wineMatchesLinkType wine (Some (familyName (getWineFamily (wine_type wine)))) = true.
Proof. unfold wineMatchesLinkType, wineMatchesFamily. apply String.eqb_refl. Qed.

(** X21: A varietal the dropdown of [showVarietalFilter] offers never empties
    the home page: on a page with a card for each family,
    [applyVarietalFilter] leaves the card of the wine it came from
    displayed. *)
Theorem offered_varietal_shows_a_card (app : App) (cards : list HomeCard) (v : string) :
  v ∈ showVarietalFilter app ->
  (forall family, exists card, card ∈ cards /\ home_type card = Some (familyName family)) ->
  exists card', card' ∈ (applyVarietalFilter v app cards).2 /\ home_display card' = true.
Proof.
  intros (wine & Hwine & Hvar & Hv)%showVarietalFilter_from_wine Hcards.
  destruct (Hcards (getWineFamily (wine_type wine))) as (card & Hcard & Htype).
  rewrite (applyVarietalFilter_cards v app cards Hv).
  eexists. split; [apply list_elem_of_fmap; by exists card|].
  destruct (counted_card (fun wine => wineMatchesLinkType wine (home_type card)
                                      && varietalsInclude wine (toLowerCase v))
                         (wines app) card) as (_ & Hdisplay & _).
  apply Hdisplay. exists wine. split; [done|].
  rewrite Htype, wineMatchesLinkType_own_family. unfold varietalsInclude.
  rewrite Hvar, includes_refl, andb_true_r. by apply truthyStr_true.
Qed.

Lemma offered_varietal_shows_a_card_witness :
  exists card',
    card' ∈ (applyVarietalFilter "Corvina, Rondinella" numberedCellar familyCards).2
    /\ home_display card' = true.
Proof.
  apply offered_varietal_shows_a_card.
  - by_evaluation.
  - intros family.
    exists {| home_type := Some (familyName family);
              home_display := true; home_count := PageText |}.
    split; [|reflexivity].
    apply list_elem_of_fmap. exists (familyName family). split; [done | apply familyName_in].
Defined.

(** X22: A region the dropdown of [showRegionFilter] offers never empties the
    home page: on a page with a card for each family, [applyRegionFilter]
    leaves the card of the wine it came from displayed. *)
Theorem offered_region_shows_a_card (app : App) (cards : list HomeCard) (r : string) :
  r ∈ showRegionFilter app ->
  (forall family, exists card, card ∈ cards /\ home_type card = Some (familyName family)) ->
  exists card', card' ∈ (applyRegionFilter r app cards).2 /\ home_display card' = true.
Proof.
  intros (wine & Hwine & Hreg & Hr)%showRegionFilter_from_wine Hcards.
  destruct (Hcards (getWineFamily (wine_type wine))) as (card & Hcard & Htype).
  rewrite (applyRegionFilter_cards r app cards Hr).
  eexists. split; [apply list_elem_of_fmap; by exists card|].
  destruct (counted_card (fun wine => wineMatchesLinkType wine (home_type card)
                                      && bool_decide (region wine = Some r))
                         (wines app) card) as (_ & Hdisplay & _).
  apply Hdisplay. exists wine. split; [done|].
  rewrite Htype, wineMatchesLinkType_own_family. by apply bool_decide_eq_true_2.
Qed.

Lemma offered_region_shows_a_card_witness :
  exists card',
    card' ∈ (applyRegionFilter "VENETO" numberedCellar familyCards).2
    /\ home_display card' = true.
Proof.
  apply offered_region_shows_a_card.
  - by_evaluation.
  - intros family.
    exists {| home_type := Some (familyName family);
              home_display := true; home_count := PageText |}.
    split; [|reflexivity].
    apply list_elem_of_fmap. exists (familyName family). split; [done | apply familyName_in].
Defined.

(** ** The table of the regions page *)

(** X23: The table view and the grid of the regions page agree: for every list of
    regions, [renderRegionsTable] writes in each row the name, the count and
    the link that [filterRegions] gives the card of the same region. *)
Theorem renderRegionsTable_agrees_with_cards (app : App) (regions : list string) :
  Forall2 (fun row card =>
             table_region_name row = card_title card
             /\ table_region_count row = card_count card
             /\ table_href row = card_href card)
          (renderRegionsTable app regions) (map (regionCard app) regions).
Proof.
  unfold renderRegionsTable. induction regions as [|r regions IH]; cbn [map]; constructor.
  - by split_and!.
  - exact IH.
Qed.

Lemma iconMap_validRegions :
  Forall (fun x => match iconMap !! normalizeRegionName (Some x) with
                   | Some icon => truthyStr icon
                                  && negb (String.eqb icon "fas fa-map-marker-alt")
                   | None => false
                   end = true) validRegions.
Proof. by_evaluation. Qed.

(** X24: Every region listed on the regions page, for wines the validity filter
    retained, has an icon of its own in [iconMap]: [getRegionIcon] never
    falls back to the map marker there. *)
Theorem getRegionIcon_of_listed_region (app : App) (regions : list string) (r : string) :
  Forall (fun w => validWine w = true) (wines app) ->
  allRegions (renderRegionsPage app) = Some regions ->
  r ∈ regions ->
  iconMap !! r = Some (getRegionIcon r)
  /\ getRegionIcon r <> "fas fa-map-marker-alt".
Proof.
  intros Hvalid Hall Hr.
  destruct (renderRegionsPage_allRegions app) as (regions' & Hall' & _ & _ & Hmem).
  rewrite Hall in Hall'. injection Hall' as <-.
  apply Hmem in Hr as (w & Hw & _ & ->).
  rewrite winesToUse_filter in Hw. apply list_elem_of_In, filter_In in Hw as [Hw _].
  apply list_elem_of_In in Hw.
  destruct (validWine_name_region w) as (_ & x & _ & -> & Hx);
    [by apply (proj1 (Forall_forall _ _) Hvalid)|].
  pose proof (proj1 (Forall_forall _ _) iconMap_validRegions x Hx) as Hicon.
  cbv beta in Hicon. unfold getRegionIcon, orElse.
  destruct (iconMap !! normalizeRegionName (Some x)) as [icon|]; [|done].
  apply andb_true_iff in Hicon as [-> Hne]. split; [done|].
  apply negb_true_iff in Hne. by destruct (String.eqb_spec icon "fas fa-map-marker-alt").
Qed.

Lemma getRegionIcon_of_listed_region_witness :
  iconMap !! "FRIULI-VENEZIA GIULIA" = Some (getRegionIcon "FRIULI-VENEZIA GIULIA")
  /\ getRegionIcon "FRIULI-VENEZIA GIULIA" <> "fas fa-map-marker-alt".
Proof.
  apply (getRegionIcon_of_listed_region friuliCellar ["FRIULI-VENEZIA GIULIA"]).
  - by_evaluation.
  - by vm_compute.
  - by left.
Defined.

Lemma handleURLParameters_type (decode : string -> option string)
    (params : URLParams) (app app' : App) :
  handleURLParameters decode params app = Some app' ->
  Filters.type (currentFilters app')
  = if truthy (param_type params) then param_type params
    else Filters.type (currentFilters app).
Proof.
  unfold handleURLParameters. intros H.
  by apply bind_Some in H as (r & _ & [= <-]).
Qed.

Lemma renderCurrentPage_filters (page : Page) (app : App) :
  currentFilters (renderCurrentPage page app) = currentFilters app.
Proof.
  destruct page; try done. unfold renderCurrentPage, renderWinesPage.
  by destruct (negb _).
Qed.

Section Explore.

Variable decodeURIComponent : string -> option string.

(** X25: The [Explore] anchor of a row of the regions table: the click is
    intercepted and [exploreRegion] builds the address again, from the name
    in the row and the [type] parameter of the page's address; on a page that
    [init] set up from that address, whatever is typed in the search box, it
    is the address the anchor had. *)
Theorem exploreRegion_follows_the_row
    (page : Page) (data_wines : option (list Wine)) (params : URLParams)
    (app : App) (text : string) (regions : list string) (row : RegionRow) :
  init decodeURIComponent page data_wines params = Some app ->
  row ∈ renderRegionsTable (setSearch text app) regions ->
  exploreRegion (table_region_name row) (param_type params) = table_href row.
Proof.
  unfold init. intros Hinit Hrow.
  apply bind_Some in Hinit as (app1 & Happ1%handleURLParameters_type & [= <-]).
  apply list_elem_of_In, in_map_iff in Hrow as (r & <- & _).
  unfold exploreRegion, regionRow. cbn [table_region_name table_href].
  cbn [setSearch currentFilters Filters.type]. rewrite renderCurrentPage_filters, Happ1.
  cbn [loadWineData currentFilters newApp Filters.type].
  by destruct (truthy (param_type params)) eqn:Ht; [rewrite Ht|].
Qed.

End Explore.

Lemma exploreRegion_follows_the_row_witness :
  exploreRegion "FRIULI-VENEZIA GIULIA" (Some "BIANCO")
  = {| param_type := Some "BIANCO"; param_region := Some "FRIULI-VENEZIA GIULIA" |}.
Proof.
  apply (exploreRegion_follows_the_row plainDecoder RegionsPage
           (Some [ribolla; friulano]) {| param_type := Some "BIANCO"; param_region := None |}
           biancoRegionsPage "friuli" ["FRIULI-VENEZIA GIULIA"]
           (regionRow (setSearch "friuli" biancoRegionsPage) "FRIULI-VENEZIA GIULIA")).
  - by vm_compute.
  - by left.
Defined.

(** ** The list of the regions page *)

(** X26: The regions page lists the normalised regions of the wines it draws
    from, the wines of the family of the criteria that have a region: each
    name once, in ascending order of code units. *)
Theorem renderRegionsPage_regions (app : App) :
  exists regions,
    allRegions (renderRegionsPage app) = Some regions
    /\ Sorted String.le regions
    /\ NoDup regions
    /\ forall r, r ∈ regions <->
         exists w, w ∈ wines app
                   /\ unsetOr (Filters.type (currentFilters app)) (wineMatchesFamily w) = true
                   /\ hasRegion w = true
                   /\ r = normalizeRegionName (region w).
Proof.
  destruct (renderRegionsPage_allRegions app) as (regions & Hall & Hsorted & Hnodup & Hmem).
  exists regions. split_and!; try done.
  intros r. rewrite Hmem, winesToUse_filter. split.
  - intros (w & [Hw Hfam]%list_elem_of_In%filter_In & Hreg & ->).
    exists w. by rewrite list_elem_of_In.
  - intros (w & Hw & Hfam & Hreg & ->). exists w. split; [|done].
    apply list_elem_of_In, filter_In. by rewrite <- list_elem_of_In.
Qed.

(** ** Food pairings *)

Lemma familyNames_inv (type : string) :
  type ∈ familyNames -> exists family, type = familyName family.
Proof.
  unfold familyNames. rewrite !elem_of_cons, elem_of_nil.
  intros [->|[->|[->|[->|[->|[->|[]]]]]]];
    [by exists ROSSO | by exists BIANCO | by exists ROSATO
     | by exists ARANCIONE | by exists BOLLICINE | by exists NON_ALCOLICO].
Qed.

Lemma pairings_families :
  Forall (fun type => match pairings !! type with
                      | Some list => Nat.eqb (length list) 4
                      | None => false
                      end = true) familyNames.
Proof. by_evaluation. Qed.

Lemma familyNames_not_inherited :
  Forall (fun type => type ∉ objectPrototypeNames) familyNames.
Proof. by_evaluation. Qed.

(** What [pairings[type]] gives: the list of a family for the name of a
    family, the inherited member for the name of one, [undefined] for any
    other string. *)
Lemma getProperty_pairings (type : string) :
  (type ∈ familyNames ->
   exists list, pairings !! type = Some list /\ length list = 4
                /\ getProperty pairings type = Some (Val list))
  /\ (type ∈ objectPrototypeNames -> getProperty pairings type = Some (Member type))
  /\ (type ∉ familyNames -> type ∉ objectPrototypeNames -> getProperty pairings type = None).
Proof.
  assert (type ∉ familyNames -> pairings !! type = None) as Hnone.
  { intros Hout. unfold pairings. by apply not_elem_of_list_to_map_1. }
  unfold getProperty. split_and!.
  - intros Hin. pose proof (proj1 (Forall_forall _ _) pairings_families type Hin) as H.
    cbv beta in H. destruct (pairings !! type) as [list|]; [|done].
    exists list. split_and!; [done | by apply Nat.eqb_eq | done].
  - intros Hin. rewrite Hnone.
    + by rewrite (proj2 (arrayIncludes_spec _ _) Hin).
    + intros Hfam. by apply (proj1 (Forall_forall _ _) familyNames_not_inherited type Hfam).
  - intros Hfam Hout. rewrite (Hnone Hfam).
    destruct (arrayIncludes objectPrototypeNames type) eqn:Hin; [|done].
    by apply arrayIncludes_spec in Hin.
Qed.

(** X27: [getFoodPairings] goes by the type as it is written, not by the
    family.  A wine whose type is exactly the name of a family gets the four
    pairings of that family.  A wine whose type is the name of a member
    inherited from [Object.prototype], such as "constructor", gets that
    member, which is no list.  Every other wine, whatever its family, gets
    the four pairings of ROSSO.  The result is never [undefined], and a list
    it returns has four items. *)
Theorem getFoodPairings_by_exact_type (wine : Wine) :
  (forall family, wine_type wine = Some (familyName family) ->
     exists list, pairings !! familyName family = Some list
                  /\ length list = 4
                  /\ getFoodPairings wine = Some (Val list))
  /\ (forall name, wine_type wine = Some name -> name ∈ objectPrototypeNames ->
        getFoodPairings wine = Some (Member name))
  /\ ((forall family, wine_type wine <> Some (familyName family)) ->
      (forall name, wine_type wine = Some name -> name ∉ objectPrototypeNames) ->
      exists rosso, pairings !! "ROSSO" = Some rosso
                    /\ getFoodPairings wine = Some (Val rosso))
  /\ (exists found, getFoodPairings wine = Some found)
  /\ (forall list, getFoodPairings wine = Some (Val list) -> length list = 4).
Proof.
  destruct (proj1 (getProperty_pairings "ROSSO")) as (rosso & Hrosso & Hlen & Hget);
    [by_evaluation|].
  assert (forall type, wine_type wine = Some type -> type ∉ familyNames ->
            type ∉ objectPrototypeNames -> getFoodPairings wine = Some (Val rosso)) as Hother.
  { intros type Htype Hfam Hout. unfold getFoodPairings. rewrite Htype.
    cbn [mbind option_bind].
    by rewrite (proj2 (proj2 (getProperty_pairings type)) Hfam Hout). }
  assert (wine_type wine = None -> getFoodPairings wine = Some (Val rosso)) as Hmissing.
  { intros Htype. unfold getFoodPairings. by rewrite Htype. }
  assert (forall name, wine_type wine = Some name -> name ∈ objectPrototypeNames ->
            getFoodPairings wine = Some (Member name)) as Hmember.
  { intros name Htype Hin. unfold getFoodPairings. rewrite Htype. cbn [mbind option_bind].
    by rewrite (proj1 (proj2 (getProperty_pairings name)) Hin). }
  assert (forall type, wine_type wine = Some type -> type ∈ familyNames ->
            exists list, pairings !! type = Some list /\ length list = 4
                         /\ getFoodPairings wine = Some (Val list)) as Hfamily.
  { intros type Htype Hin.
    destruct (proj1 (getProperty_pairings type) Hin) as (list & Hl & Hfour & Hp).
    exists list. split_and!; [done..|].
    unfold getFoodPairings. rewrite Htype. cbn [mbind option_bind]. by rewrite Hp. }
  split_and!.
  - intros family Htype. apply Hfamily; [done | apply familyName_in].
  - exact Hmember.
  - intros Hnofamily Hnomember. exists rosso. split; [done|].
    destruct (wine_type wine) as [type|] eqn:Htype; [|by apply Hmissing].
    apply (Hother type); [done| |by apply Hnomember].
    intros [family ->]%familyNames_inv. by apply (Hnofamily family).
  - destruct (wine_type wine) as [type|] eqn:Htype; [|by rewrite Hmissing; eauto].
    destruct (decide (type ∈ familyNames)) as [Hin|Hfam].
    { destruct (Hfamily type eq_refl Hin) as (list & _ & _ & ->). eauto. }
    destruct (decide (type ∈ objectPrototypeNames)) as [Hin|Hout].
    { rewrite (Hmember type eq_refl Hin). eauto. }
    rewrite (Hother type eq_refl Hfam Hout). eauto.
  - intros list Hlist.
    destruct (wine_type wine) as [type|] eqn:Htype;
      [|rewrite Hmissing in Hlist by done; by injection Hlist as <-].
    destruct (decide (type ∈ familyNames)) as [Hin|Hfam].
    { destruct (Hfamily type eq_refl Hin) as (list' & _ & Hfour & Hp).
      rewrite Hp in Hlist. by injection Hlist as <-. }
    destruct (decide (type ∈ objectPrototypeNames)) as [Hin|Hout].
    { by rewrite (Hmember type eq_refl Hin) in Hlist. }
    rewrite (Hother type eq_refl Hfam Hout) in Hlist. by injection Hlist as <-.
Qed.

(** ** Wine images *)

Lemma wineImages_lookup (key url : string) :
  wineImages !! key = Some url <-> (key, url) ∈ wineImagesEntries.
Proof.
  unfold wineImages. symmetry. apply elem_of_list_to_map.
  by_evaluation.
Qed.

Lemma wineImages_truthy (key url : string) :
  wineImages !! key = Some url -> truthyStr url = true.
Proof.
  intros H%wineImages_lookup. revert H.
  apply (proj1 (Forall_forall (fun entry => truthyStr entry.2 = true) wineImagesEntries)
               ltac:(by_evaluation) (key, url)).
Qed.

Lemma wineImages_image (key url : string) :
  wineImages !! key = Some url -> url ∈ wineImagesEntries.*2.
Proof.
  intros H%wineImages_lookup. apply list_elem_of_fmap. by exists (key, url).
Qed.

(** What [this.wineImages[key]] gives is truthy whenever it is defined; it
    is an address of the table or the inherited member of the name [key]. *)
Lemma getProperty_wineImages (key : string) (found : Value string) :
  getProperty wineImages key = Some found ->
  truthyValue (Some found) = true
  /\ ((exists url, found = Val url /\ url ∈ wineImagesEntries.*2)
      \/ (found = Member key /\ key ∈ objectPrototypeNames)).
Proof.
  unfold getProperty. destruct (wineImages !! key) as [url|] eqn:Hl.
  - intros [= <-]. split; [by apply (wineImages_truthy key)|].
    left. exists url. split; [done | by apply (wineImages_image key)].
  - destruct (arrayIncludes objectPrototypeNames key) eqn:Hin; [|done].
    intros [= <-]. split; [done|]. right. by apply arrayIncludes_spec in Hin.
Qed.

Lemma partialNameMatch_named (entries : list (string * string)) (wine : Wine) (name : string) :
  wine_name wine = Some name ->
  exists result,
    partialNameMatch entries wine = Some result
    /\ forall url, result = Some url -> url ∈ entries.*2.
Proof.
  intros Hname. induction entries as [|[wineName imageUrl] entries IH].
  - exists None. by split.
  - cbn [partialNameMatch]. rewrite Hname. cbn [mbind option_bind].
    destruct (_ || _).
    + exists (Some imageUrl). split; [done|]. intros url [= <-]. by left.
    + destruct IH as (result & -> & Hin). exists result. split; [done|].
      intros url Hurl. right. by apply Hin.
Qed.

Lemma partialNameMatch_hit (entries : list (string * string)) (wine : Wine)
    (name key url : string) :
  wine_name wine = Some name ->
  (key, url) ∈ entries ->
  includes (toLowerCase key) (toLowerCase name) = true
  \/ includes (toLowerCase name) (toLowerCase key) = true ->
  exists found, partialNameMatch entries wine = Some (Some found) /\ found ∈ entries.*2.
Proof.
  intros Hname Hin Hinc. induction entries as [|[wineName imageUrl] entries IH].
  - by apply elem_of_nil in Hin.
  - cbn [partialNameMatch]. rewrite Hname. cbn [mbind option_bind].
    destruct (_ || _) eqn:Hhere; [exists imageUrl; split; [done | by left]|].
    apply elem_of_cons in Hin as [[= <- <-]|Hin].
    + apply orb_false_iff in Hhere as [H1 H2]. destruct Hinc; congruence.
    + destruct (IH Hin) as (found & -> & Hfound). exists found. split; [done | by right].
Qed.

Lemma partialProducerMatch_image (entries : list (string * string)) (text url : string) :
  partialProducerMatch entries text = Some url -> url ∈ entries.*2.
Proof.
  induction entries as [|[wineName imageUrl] entries IH]; [done|].
  cbn [partialProducerMatch]. destruct (_ || _).
  - intros [= <-]. by left.
  - intros H. right. by apply IH.
Qed.

Lemma keywordMatch_image (entries : list (string * string)) (words : list string)
    (url : string) :
  keywordMatch entries words = Some url -> url ∈ entries.*2.
Proof.
  induction entries as [|[wineName imageUrl] entries IH]; [done|].
  cbn [keywordMatch]. destruct (existsb _ words).
  - intros [= <-]. by left.
  - intros H. right. by apply IH.
Qed.

(** The exact lookup by the producer, cleaned of stars and trimmed. *)
Lemma byProducer_found (wine : Wine) (found : Value string) :
  (if truthy (wine_producer wine)
   then producer ← wine_producer wine;
        getProperty wineImages (trim (removeStars producer))
   else None) = Some found ->
  exists producer,
    wine_producer wine = Some producer
    /\ getProperty wineImages (trim (removeStars producer)) = Some found.
Proof.
  destruct (wine_producer wine) as [producer|]; [|done].
  cbn [truthy mbind option_bind]. destruct (truthyStr producer); [|done].
  intros H. by exists producer.
Qed.

(** What [findWineImage] returns for a wine with a name. *)
Lemma findWineImage_result (wine : Wine) (name : string) :
  wine_name wine = Some name ->
  exists result,
    findWineImage true wine = Some result
    /\ forall found, result = Some found ->
         (exists url, found = Val url /\ url ∈ wineImagesEntries.*2)
         \/ (found = Member name /\ name ∈ objectPrototypeNames)
         \/ (exists producer,
               wine_producer wine = Some producer
               /\ found = Member (trim (removeStars producer))
               /\ trim (removeStars producer) ∈ objectPrototypeNames).
Proof.
  intros Hname. unfold findWineImage. cbn [negb].
  rewrite Hname. cbn [mbind option_bind].
  destruct (truthyValue (getProperty wineImages name)) eqn:Hexact.
  { eexists. split; [reflexivity|]. intros found Hfound.
    destruct (getProperty_wineImages name found Hfound) as [_ [H|H]]; [by left | by right; left]. }
  set (byProducer := if truthy (wine_producer wine) then _ else None).
  destruct (truthyValue byProducer) eqn:Hproducer.
  { exists byProducer. split; [done|]. intros found Hfound.
    apply byProducer_found in Hfound as (producer & Hp & Hget).
    destruct (getProperty_wineImages _ found Hget) as [_ [H|[-> Hin]]]; [by left|].
    right; right. by exists producer. }
  destruct (partialNameMatch_named wineImagesEntries wine name Hname)
    as (byPartialName & -> & Hpartial).
  cbn [mbind option_bind]. destruct byPartialName as [imageUrl|].
  { eexists. split; [reflexivity|]. intros ? [= <-]. left. exists imageUrl.
    split; [done | by apply Hpartial]. }
  set (byPartialProducer := if truthy (wine_producer wine) then _ else None).
  destruct byPartialProducer as [imageUrl|] eqn:Hpp.
  { eexists. split; [reflexivity|]. intros ? [= <-]. left. exists imageUrl. split; [done|].
    unfold byPartialProducer in Hpp.
    destruct (truthy (wine_producer wine)); [|done].
    destruct (wine_producer wine) as [producer|]; [|done].
    by apply partialProducerMatch_image in Hpp. }
  eexists. split; [reflexivity|]. intros found Hfound.
  destruct (keywordMatch _ _) as [url|] eqn:Hk; [|done].
  injection Hfound as <-. left. exists url. split; [done|].
  by apply keywordMatch_image in Hk.
Qed.

(** X28: for a wine with a name [findWineImage] does not throw.  What it
    returns is [null], or one of the addresses of the table, or, when the
    name or the producer cleaned of stars and trimmed is the name of a
    member inherited from [Object.prototype], that member. *)
Theorem findWineImage_named (loaded : bool) (wine : Wine) (name : string) :
  wine_name wine = Some name ->
  exists result,
    findWineImage loaded wine = Some result
    /\ (forall url, result = Some (Val url) -> url ∈ wineImagesEntries.*2)
    /\ (forall member, result = Some (Member member) ->
          member ∈ objectPrototypeNames
          /\ (member = name
              \/ exists producer, wine_producer wine = Some producer
                                  /\ member = trim (removeStars producer)))
    /\ (name ∉ objectPrototypeNames ->
        (forall producer, wine_producer wine = Some producer ->
                          trim (removeStars producer) ∉ objectPrototypeNames) ->
        result = None \/ exists url, result = Some (Val url) /\ url ∈ wineImagesEntries.*2).
Proof.
  intros Hname. destruct loaded.
  2: { exists None. split_and!; [done|done|done|by left]. }
  destruct (findWineImage_result wine name Hname) as (result & -> & Hresult).
  exists result. split_and!; [done| | |].
  - intros url ->.
    destruct (Hresult _ eq_refl) as [(url' & [= <-] & Hin)|[[? _]|(? & _ & ? & _)]]; done.
  - intros member ->.
    destruct (Hresult _ eq_refl) as [(url' & ? & _)|[[[= ->] Hin]|(producer & Hp & [= ->] & Hin)]];
      [done | by split; [|left] | split; [done|right; by exists producer]].
  - intros Hname_plain Hproducer_plain. destruct result as [found|]; [|by left]. right.
    destruct (Hresult _ eq_refl) as [(url & -> & Hin)|[[_ Hin]|(producer & Hp & _ & Hin)]];
      [by exists url | done | by apply Hproducer_plain in Hp].
Qed.

Lemma findWineImage_named_witness :
  exists result,
    findWineImage true amarone = Some result
    /\ (forall url, result = Some (Val url) -> url ∈ wineImagesEntries.*2)
    /\ (forall member, result = Some (Member member) ->
          member ∈ objectPrototypeNames
          /\ (member = "Amarone Classico"
              \/ exists producer, wine_producer amarone = Some producer
                                  /\ member = trim (removeStars producer)))
    /\ ("Amarone Classico" ∉ objectPrototypeNames ->
        (forall producer, wine_producer amarone = Some producer ->
                          trim (removeStars producer) ∉ objectPrototypeNames) ->
        result = None \/ exists url, result = Some (Val url) /\ url ∈ wineImagesEntries.*2).
Proof. by apply (findWineImage_named true amarone "Amarone Classico"). Defined.

(** X29: [findWineImage] throws exactly when the images are loaded, the wine
    has no name, and [this.wineImages[producerName]] is [undefined] for its
    producer cleaned of stars and trimmed, that is when this is neither a key
    of the table nor the name of an inherited member: the loop over the
    entries then calls [toLowerCase] on the missing name. *)
Theorem findWineImage_throws_iff (loaded : bool) (wine : Wine) :
  findWineImage loaded wine = None <->
  loaded = true
  /\ wine_name wine = None
  /\ ~ exists producer,
         wine_producer wine = Some producer
         /\ (is_Some (wineImages !! trim (removeStars producer))
             \/ trim (removeStars producer) ∈ objectPrototypeNames).
Proof.
  destruct loaded.
  2: { by split; [|intros [? _]]. }
  destruct (wine_name wine) as [name|] eqn:Hname.
  { destruct (findWineImage_result wine name Hname) as (result & -> & _).
    by split; [|intros (_ & ? & _)]. }
  assert (forall key, is_Some (getProperty wineImages key) <->
            is_Some (wineImages !! key) \/ key ∈ objectPrototypeNames) as Hget.
  { intros key. unfold getProperty. destruct (wineImages !! key) as [url|].
    - split; [by left; eexists | by eexists].
    - destruct (arrayIncludes objectPrototypeNames key) eqn:Hin.
      + apply arrayIncludes_spec in Hin. split; [by right | by eexists].
      + split; [by intros [? ?]|]. intros [[? ?]|Hin'%arrayIncludes_spec]; congruence. }
  unfold findWineImage. cbn [negb]. rewrite Hname. cbn [mbind option_bind truthyValue].
  destruct (wine_producer wine) as [producer|]; cbn [truthy mbind option_bind].
  - destruct (getProperty wineImages (trim (removeStars producer))) as [found|] eqn:Hl.
    + assert (trim (removeStars producer) <> "") as Hkey.
      { intros Hempty. rewrite Hempty in Hl. by vm_compute in Hl. }
      assert (truthyStr producer = true) as ->.
      { apply truthyStr_true. intros ->. by apply Hkey. }
      rewrite (proj1 (getProperty_wineImages _ _ Hl)).
      split; [done|]. intros (_ & _ & Hno). destruct Hno. exists producer.
      split; [done|]. apply Hget. by rewrite Hl.
    + assert ((if truthyStr producer then None else None) = @None (Value string)) as ->
        by (by destruct (truthyStr producer)).
      cbn [truthyValue]. unfold wineImagesEntries. cbn [partialNameMatch].
      rewrite Hname. cbn [mbind option_bind].
      split; [|done]. intros _. split_and!; try done.
      intros (p & [= <-] & Hsome%Hget). rewrite Hl in Hsome. by destruct Hsome.
  - cbn [truthyValue]. unfold wineImagesEntries. cbn [partialNameMatch].
    rewrite Hname. cbn [mbind option_bind].
    split; [|done]. intros _. split_and!; try done. by intros (p & ? & _).
Qed.

(** X30: with the images loaded, a wine whose name contains the name of an
    entry of the table, or is contained in it, letter case ignored, never
    gets [null]: it gets an address of the table, unless its name or its
    producer cleaned of stars and trimmed is the name of an inherited
    member, which the lookups before the loop then return. *)
Theorem findWineImage_finds_contained_key (wine : Wine) (name key url : string) :
  wine_name wine = Some name ->
  (key, url) ∈ wineImagesEntries ->
  includes (toLowerCase key) (toLowerCase name) = true
  \/ includes (toLowerCase name) (toLowerCase key) = true ->
  exists found,
    findWineImage true wine = Some (Some found)
    /\ (name ∉ objectPrototypeNames ->
        (forall producer, wine_producer wine = Some producer ->
                          trim (removeStars producer) ∉ objectPrototypeNames) ->
        exists address, found = Val address /\ address ∈ wineImagesEntries.*2).
Proof.
  intros Hname Hin Hinc.
  destruct (findWineImage_result wine name Hname) as (result & Hresult & Hshape).
  assert (exists found, result = Some found) as [found ->].
  { revert Hresult. unfold findWineImage. cbn [negb]. rewrite Hname. cbn [mbind option_bind].
    destruct (truthyValue (getProperty wineImages name)) eqn:Hexact.
    { intros [= <-]. destruct (getProperty wineImages name) as [found|]; [by exists found | done]. }
    set (byProducer := if truthy (wine_producer wine) then _ else None).
    destruct (truthyValue byProducer) eqn:Hproducer.
    { intros [= <-]. destruct byProducer as [found|]; [by exists found | done]. }
    destruct (partialNameMatch_hit wineImagesEntries wine name key url Hname Hin Hinc)
      as (image & -> & _).
    cbn [mbind option_bind]. intros [= <-]. by eexists. }
  exists found. split; [done|]. intros Hname_plain Hproducer_plain.
  destruct (Hshape _ eq_refl) as [H|[[_ Hmember]|(producer & Hp & _ & Hmember)]];
    [done | done | by apply Hproducer_plain in Hp].
Qed.

Lemma findWineImage_finds_contained_key_witness :
  exists found,
    findWineImage true
      (sampleWine "Barolo Riserva" "Marchesi" "ROSSO SUPERIORE" "PIEMONTE" "85")
    = Some (Some found)
    /\ found = Val "https://www.agraria.org/vini/barolo.jpg".
Proof.
  destruct (findWineImage_finds_contained_key
              (sampleWine "Barolo Riserva" "Marchesi" "ROSSO SUPERIORE" "PIEMONTE" "85")
              "Barolo Riserva" "BAROLO" "https://www.agraria.org/vini/barolo.jpg")
    as (found & Hfound & _).
  - reflexivity.
  - by_evaluation.
  - right. by vm_compute.
  - exists found. split; [exact Hfound|].
    vm_compute in Hfound. by injection Hfound as <-.
Defined.
